(** * The Sudoku solver of [src/App.jsx]

    A shallow embedding of [isValid], [solveBoard] and [solveSudoku]
    (src/src/App.jsx, lines 100-169) and the properties of their
    specification.

    The solver works on JavaScript arrays that it copies and then mutates
    in place, so the embedding is a state-and-exception monad over a store
    of arrays: a computation either returns a value together with the new
    store, throws a [TypeError], or runs out of the fuel that bounds the
    recursion of [solveBoard].

    The file first gives the definitions: the values and the store, the
    three functions of the source, the grids of the specification and
    the example inputs.  The proofs follow: the loops and the board in
    the store, the validation loop, the search, and the claims. *)

From Stdlib Require Import ZArith QArith Bool Lia Ascii String List DecimalString.
From stdpp Require Import base list strings.

Local Open Scope string_scope.
Local Open Scope nat_scope.

(** ** Values and the store *)

(** A JavaScript number: [NaN], an infinity, or a finite double, which is
    kept as the rational it denotes.  Comparison is by value, so [-0] and
    [+0] are the same number, as they are for [===], [<] and [>]. *)
Inductive number :=
| NaN
| Inf (negative : bool)
| Fin (q : Q).

Abbreviation loc := nat (only parsing).

(** The values the solver can meet: primitives and references to arrays.
    Arrays are dense; other objects are not modelled. *)
Inductive value :=
| VUndefined
| VNull
| VBool (b : bool)
| VNum (n : number)
| VStr (s : string)
| VRef (l : loc).

(** The store: the array at location [l] is the [l]-th entry; allocation
    appends. *)
Abbreviation heap := (list (list value)).

Definition of_Z (z : Z) : value := VNum (Fin (inject_Z z)).
Definition of_nat (n : nat) : value := of_Z (Z.of_nat n).
Definition zero : value := of_Z 0.

(** [a === b] *)
Definition num_eq (a b : number) : bool :=
  match a, b with
  | Fin p, Fin q => Qeq_bool p q
  | Inf s, Inf t => Bool.eqb s t
  | _, _ => false
  end.

Definition strict_eq (a b : value) : bool :=
  match a, b with
  | VUndefined, VUndefined => true
  | VNull, VNull => true
  | VBool x, VBool y => Bool.eqb x y
  | VNum x, VNum y => num_eq x y
  | VStr s, VStr t => String.eqb s t
  | VRef l, VRef m => Nat.eqb l m
  | _, _ => false
  end.

(** [Number.isFinite(v)]: no coercion, so only finite numbers pass. *)
Definition isFinite (v : value) : bool :=
  match v with
  | VNum (Fin _) => true
  | _ => false
  end.

(** [a < b] on numbers.  The solver only compares a value that passed
    [Number.isFinite] with a literal, so the coercions of [<] on other
    types are never reached; they are given as [false]. *)
Definition lt (a b : value) : bool :=
  match a, b with
  | VNum (Fin p), VNum (Fin q) => negb (Qle_bool q p)
  | _, _ => false
  end.

Definition gt (a b : value) : bool := lt b a.

(** ** The monad *)

Inductive res (A : Type) :=
| Ok (a : A) (h : heap)
| Throw (h : heap)
| Timeout.
Arguments Ok {A} a h.
Arguments Throw {A} h.
Arguments Timeout {A}.

Definition M (A : Type) := heap -> res A.

#[global] Instance M_ret : MRet M := fun A (a : A) h => Ok a h.

#[global] Instance M_bind : MBind M := fun A B (k : A -> M B) (m : M A) h =>
  match m h with
  | Ok a h' => k a h'
  | Throw h' => Throw h'
  | Timeout => Timeout
  end.

Definition ret {A} (a : A) : M A := mret a.

(** ** Array primitives *)

(** [o[i]] *)
Definition get (o : value) (i : nat) : M value :=
  fun h =>
    match o with
    | VUndefined | VNull => Throw h
    | VRef l =>
        match h !! l with
        | Some a => Ok (default VUndefined (a !! i)) h
        | None => Ok VUndefined h
        end
    | VStr s =>
        match String.get i s with
        | Some ch => Ok (VStr (String ch EmptyString)) h
        | None => Ok VUndefined h
        end
    | _ => Ok VUndefined h
    end.

(** An array after [a[i] = v]: an index past the end extends the array. *)
Definition array_set (a : list value) (i : nat) (v : value) : list value :=
  if i <? length a then <[i := v]> a
  else a ++ replicate (i - length a) VUndefined ++ [v].

(** [o[i] = v], in strict mode (the file is an ES module): assigning to a
    property of a primitive throws. *)
Definition set (o : value) (i : nat) (v : value) : M unit :=
  fun h =>
    match o with
    | VRef l =>
        match h !! l with
        | Some a => Ok tt (<[l := array_set a i v]> h)
        | None => Throw h
        end
    | _ => Throw h
    end.

(** [Array.isArray(o)] *)
Definition isArray (o : value) : M bool :=
  fun h =>
    match o with
    | VRef l => Ok (bool_decide (is_Some (h !! l))) h
    | _ => Ok false h
    end.

(** [o.length] *)
Definition get_length (o : value) : M value :=
  fun h =>
    match o with
    | VUndefined | VNull => Throw h
    | VRef l =>
        match h !! l with
        | Some a => Ok (of_nat (length a)) h
        | None => Ok VUndefined h
        end
    | VStr s => Ok (of_nat (String.length s)) h
    | _ => Ok VUndefined h
    end.

Definition alloc (a : list value) : M value :=
  fun h => Ok (VRef (length h)) (h ++ [a]).

(** [o.slice()]: a fresh copy of an array, the string itself for a string,
    and a [TypeError] for anything else (no [slice] to call). *)
Definition slice (o : value) : M value :=
  fun h =>
    match o with
    | VRef l =>
        match h !! l with
        | Some a => alloc a h
        | None => Throw h
        end
    | VStr s => Ok (VStr s) h
    | _ => Throw h
    end.

Fixpoint mapM {A B} (f : A -> M B) (l : list A) : M (list B) :=
  match l with
  | [] => ret []
  | x :: l' => y ← f x; ys ← mapM f l'; ret (y :: ys)
  end.

(** [o.map(f)] for an array [o] *)
Definition array_map (o : value) (f : value -> M value) : M value :=
  fun h =>
    match o with
    | VRef l =>
        match h !! l with
        | Some a => (bs ← mapM f a; alloc bs) h
        | None => Throw h
        end
    | _ => Throw h
    end.

(** [for (let i = lo; i < lo + n; i += 1) body]: the body answers [Some r]
    for [return r] and [None] to go on with the next index. *)
Fixpoint for_ {R} (n lo : nat) (body : nat -> M (option R)) : M (option R) :=
  match n with
  | 0 => ret None
  | S n' =>
      r ← body lo;
      match r with
      | Some x => ret (Some x)
      | None => for_ n' (S lo) body
      end
  end.

(** ** The solver *)

(** [isValid(board, row, col, value)], lines 100-116 *)
Definition isValid (board : value) (row col : nat) (v : value) : M bool :=
  r1 ← for_ 9 0 (fun index =>
          brow ← get board row;
          x ← get brow index;
          if strict_eq x v then ret (Some false) else
          bidx ← get board index;
          y ← get bidx col;
          if strict_eq y v then ret (Some false) else
          ret None);
  match r1 with
  | Some b => ret b
  | None =>
      let boxRow := row / 3 * 3 in
      let boxCol := col / 3 * 3 in
      r2 ← for_ 3 boxRow (fun r =>
              for_ 3 boxCol (fun c =>
                br ← get board r;
                z ← get br c;
                if strict_eq z v then ret (Some false) else ret None));
      match r2 with
      | Some b => ret b
      | None => ret true
      end
  end.

(** [solveBoard(board)], lines 118-135.  Every call of the source is one
    unit of fuel. *)
Fixpoint solveBoard (fuel : nat) (board : value) : M bool :=
  match fuel with
  | 0 => fun _ => Timeout
  | S fuel' =>
      r ← for_ 9 0 (fun row =>
             for_ 9 0 (fun col =>
               brow ← get board row;
               x ← get brow col;
               if strict_eq x zero then
                 t ← for_ 9 1 (fun value =>
                        ok ← isValid board row col (of_nat value);
                        if (ok : bool) then
                          brow ← get board row;
                          set brow col (of_nat value);;
                          s ← solveBoard fuel' board;
                          if (s : bool) then ret (Some true) else
                          brow ← get board row;
                          set brow col zero;;
                          ret None
                        else ret None);
                 match t with
                 | Some b => ret (Some b)
                 | None => ret (Some false)
                 end
               else ret None));
      match r with
      | Some b => ret b
      | None => ret true
      end
  end.

(** The object [{ solution, error }] that [solveSudoku] returns: one of the
    two fields is always [null]. *)
Inductive outcome :=
| Solution (board : value)
| Error (message : string).

Definition nat_to_string (n : nat) : string :=
  NilEmpty.string_of_uint (Nat.to_uint n).

Definition msg_rows : string := "Puzzle must have 9 rows.".
Definition msg_row (row : nat) : string :=
  "Row " ++ nat_to_string (row + 1) ++ " must have 9 values.".
Definition msg_range : string := "Values must be numbers 0-9.".
Definition msg_conflict : string := "Puzzle has conflicting values.".
Definition msg_unsolvable : string := "No solution found.".

(** [!Array.isArray(o) || o.length !== 9] *)
Definition not_nine (o : value) : M bool :=
  a ← isArray o;
  if negb (a : bool) then ret true else
  len ← get_length o;
  ret (negb (strict_eq len (of_nat 9))).

(** The validation loop of [solveSudoku], lines 144-162. *)
Definition validate (board : value) : M (option outcome) :=
  for_ 9 0 (fun row =>
    brow ← get board row;
    bad ← not_nine brow;
    if (bad : bool) then ret (Some (Error (msg_row row))) else
    for_ 9 0 (fun col =>
      brow ← get board row;
      v ← get brow col;
      if negb (isFinite v) || lt v (of_nat 0) || gt v (of_nat 9)
      then ret (Some (Error msg_range)) else
      if negb (strict_eq v zero) then
        brow ← get board row;
        set brow col zero;;
        ok ← isValid board row col v;
        if negb (ok : bool) then ret (Some (Error msg_conflict)) else
        brow ← get board row;
        set brow col v;;
        ret None
      else ret None)).

(** [solveSudoku(rows)], lines 137-169 *)
Definition solveSudoku (fuel : nat) (rows : value) : M outcome :=
  bad ← not_nine rows;
  if (bad : bool) then ret (Error msg_rows) else
  board ← array_map rows slice;
  r ← validate board;
  match r with
  | Some o => ret o
  | None =>
      s ← solveBoard fuel board;
      if negb (s : bool) then ret (Error msg_unsolvable) else
      ret (Solution board)
  end.

(** ** Boards in the store *)

(** The contents of a board, row by row.  [rowG] and [cellG] read it the
    way [board[row][col]] does: a missing column is [undefined]. *)
Abbreviation grid := (list (list value)).

Definition rowG (g : grid) (r : nat) : list value := default [] (g !! r).
Definition cellG (g : grid) (r c : nat) : value :=
  default VUndefined (rowG g r !! c).
Definition updG (g : grid) (r c : nat) (v : value) : grid :=
  <[r := array_set (rowG g r) c v]> g.

(** [board] is an array of references to arrays that hold the rows [g].
    Rows may be shared: this is all that reading needs. *)
Definition row_at (h : heap) (ref : value) (row : list value) : Prop :=
  ∃ l, ref = VRef l ∧ h !! l = Some row.

Definition board_at (h : heap) (board : value) (g : grid) : Prop :=
  ∃ l refs, board = VRef l ∧ h !! l = Some refs ∧ Forall2 (row_at h) refs g.

(** The store after [rows.map((row) => row.slice())] on a store [h0]: the
    copies [g] follow [h0], then comes the array of their references. *)
Definition row_refs (h0 : heap) (n : nat) : list value :=
  VRef <$> seq (length h0) n.
Definition lay (h0 : heap) (g : grid) : heap :=
  h0 ++ g ++ [row_refs h0 (length g)].
Definition board_of (h0 : heap) (n : nat) : value :=
  VRef (length h0 + n).

(** The first answer of a loop whose body does not change the store. *)
Fixpoint first_some {R} (n lo : nat) (f : nat -> option R) : option R :=
  match n with
  | 0 => None
  | S n' =>
      match f lo with
      | Some x => Some x
      | None => first_some n' (S lo) f
      end
  end.

(** What [isValid] computes from the contents of the board. *)
Definition isValidG (g : grid) (row col : nat) (v : value) : bool :=
  match
    first_some 9 0 (fun index =>
      if strict_eq (cellG g row index) v then Some false else
      if strict_eq (cellG g index col) v then Some false else None)
  with
  | Some b => b
  | None =>
      match
        first_some 3 (row / 3 * 3) (fun r =>
          first_some 3 (col / 3 * 3) (fun c =>
            if strict_eq (cellG g r c) v then Some false else None))
      with
      | Some b => b
      | None => true
      end
  end.

(** What the validation loop answers for one cell, one row, the board. *)
Definition in_range (v : value) : bool :=
  negb (negb (isFinite v) || lt v (of_nat 0) || gt v (of_nat 9)).

Definition cell_check (g : grid) (row col : nat) : option outcome :=
  let v := cellG g row col in
  if negb (in_range v) then Some (Error msg_range) else
  if strict_eq v zero then None else
  if isValidG (updG g row col zero) row col v then None
  else Some (Error msg_conflict).

Definition row_check (g : grid) (row : nat) : option outcome :=
  if negb (length (rowG g row) =? 9) then Some (Error (msg_row row))
  else first_some 9 0 (cell_check g row).

Definition validateG (g : grid) : option outcome :=
  first_some 9 0 (row_check g).

(** ** Triples *)

(** Total correctness: from a store in [P], [m] returns, in [Q]. *)
Definition hoare {A} (P : heap -> Prop) (m : M A) (Q : A -> heap -> Prop) : Prop :=
  ∀ h, P h → ∃ a h', m h = Ok a h' ∧ Q a h'.

(** Whatever the outcome, the final store satisfies [P]. *)
Definition always {A} (P : heap -> Prop) (r : res A) : Prop :=
  match r with
  | Ok _ h | Throw h => P h
  | Timeout => True
  end.

(** ** Sudoku grids *)

(** A grid of integers, [0] for an empty cell, and the board that holds
    it. *)
Abbreviation zgrid := (list (list Z)).

Definition inj (zg : zgrid) : grid := (fun row : list Z => of_Z <$> row) <$> zg.

Definition zcell (zg : zgrid) (r c : nat) : Z :=
  default 0%Z (default [] (zg !! r) !! c).

Definition zupd (zg : zgrid) (r c : nat) (v : Z) : zgrid :=
  <[r := <[c := v]> (default [] (zg !! r))]> zg.

Definition wf9 (zg : zgrid) : Prop :=
  length zg = 9 ∧ Forall (fun row => length row = 9) zg.

(** A property of every cell, of some cell. *)
Definition all_cells (P : nat -> nat -> Prop) : Prop :=
  ∀ r c, r < 9 → c < 9 → P r c.
Definition some_cell (P : nat -> nat -> Prop) : Prop :=
  ∃ r c, r < 9 ∧ c < 9 ∧ P r c.

Definition digits (zg : zgrid) : Prop :=
  all_cells (fun r c => (0 ≤ zcell zg r c ≤ 9)%Z).

Definition full (zg : zgrid) : Prop :=
  all_cells (fun r c => (1 ≤ zcell zg r c ≤ 9)%Z).

(** Two cells see each other when they share a row, a column or a box. *)
Definition same_unit (r c r' c' : nat) : Prop :=
  r' = r ∨ c' = c ∨ (r' / 3 = r / 3 ∧ c' / 3 = c / 3).

(** The cell [(r, c)] holds a digit that another cell it sees holds too. *)
Definition cell_conflict (zg : zgrid) (r c : nat) : Prop :=
  zcell zg r c ≠ 0%Z ∧
  some_cell (fun r' c' =>
    (r, c) ≠ (r', c') ∧ same_unit r c r' c' ∧ zcell zg r c = zcell zg r' c').

(** Two distinct cells that see each other hold the same digit. *)
Definition conflict (zg : zgrid) : Prop := some_cell (cell_conflict zg).

(** [s] keeps the digits of [zg]. *)
Definition extends (zg s : zgrid) : Prop :=
  all_cells (fun r c => zcell zg r c ≠ 0%Z → zcell s r c = zcell zg r c).

(** [s] assigns digits to the empty cells of [zg] and satisfies the row,
    column and box constraints. *)
Definition completion (zg s : zgrid) : Prop :=
  wf9 s ∧ full s ∧ ¬ conflict s ∧ extends zg s.

(** The 81 cells in row-major order, and the lexicographic order. *)
Definition row_major (s : zgrid) : list Z :=
  (fun p => zcell s (p / 9) (p mod 9)) <$> seq 0 81.

Fixpoint lex_le (a b : list Z) : Prop :=
  match a, b with
  | [], _ => True
  | _ :: _, [] => False
  | x :: a', y :: b' => (x < y)%Z ∨ (x = y ∧ lex_le a' b')
  end.

(** The cells before position [k] of the row-major order are filled. *)
Definition prefix_filled (zg : zgrid) (k : nat) : Prop :=
  ∀ p, p < k → zcell zg (p / 9) (p mod 9) ≠ 0%Z.

(** [s] is the completion of [zg] that comes first in the lexicographic
    order of the row-major reading. *)
Definition least_completion (zg s : zgrid) : Prop :=
  completion zg s ∧
  ∀ s', completion zg s' → lex_le (row_major s) (row_major s').

(** What [solveBoard] returns on the board of [zg], and the store it
    leaves. *)
Definition search_post (h0 : heap) (zg : zgrid) (b : bool) (h : heap) : Prop :=
  ∃ zg', h = lay h0 (inj zg') ∧
    if b then least_completion zg zg'
    else zg' = zg ∧ ∀ s, ¬ completion zg s.

(** ** The caller's arrays *)

(** A reference of the copied board: not an array of the caller's store
    [h0], and not the board itself at [bl]. *)
Definition own_ref (h0 : heap) (bl : loc) (v : value) : Prop :=
  match v with
  | VRef l => length h0 ≤ l ∧ l ≠ bl
  | _ => True
  end.

(** The store [h] extends [h0] and holds at [bl] the board [brefs]. *)
Definition owns (h0 : heap) (bl : loc) (brefs : list value) (h : heap) : Prop :=
  h0 `prefix_of` h ∧ h !! bl = Some brefs.

(** The grid that a returned board holds, and what a caller sees of an
    outcome: the message, or the solution. *)
Definition read_board (h : heap) (b : value) : grid :=
  match b with
  | VRef l =>
      (fun ref => match ref with
                  | VRef l' => default [] (h !! l')
                  | _ => []
                  end) <$> default [] (h !! l)
  | _ => []
  end.

Definition verdict (h : heap) (o : outcome) : string + grid :=
  match o with
  | Error m => inl m
  | Solution b => inr (read_board h b)
  end.

(** ** What the validation loop checks *)

(** [v] is a finite number between 0 and 9: what the range check accepts. *)
Definition number_0_9 (v : value) : Prop :=
  ∃ q, v = VNum (Fin q) ∧ (0 <= q)%Q ∧ (q <= 9)%Q.

(** [v] is one of the integers 0, ..., 9. *)
Definition integer_0_9 (v : value) : Prop :=
  ∃ z, (0 ≤ z ≤ 9)%Z ∧ strict_eq v (of_Z z) = true.

(** The value of the cell [(r, c)] is also the value of another cell that
    it sees. *)
Definition clash (g : grid) (r c : nat) : Prop :=
  some_cell (fun r' c' =>
    (r, c) ≠ (r', c') ∧ same_unit r c r' c' ∧
    strict_eq (cellG g r' c') (cellG g r c) = true).

(** The cell passes the range check and the conflict check; the row passes
    the length check and the checks of its cells. *)
Definition cell_ok (g : grid) (r c : nat) : Prop :=
  number_0_9 (cellG g r c) ∧
  (strict_eq (cellG g r c) zero = true ∨ ¬ clash g r c).

Definition row_ok (g : grid) (r : nat) : Prop :=
  length (rowG g r) = 9 ∧ ∀ c, c < 9 → cell_ok g r c.

(** ** Example inputs *)

(** A caller's store that holds only the rows [g] and the array of their
    references, and the reference to that array. *)
Definition input_store (g : grid) : heap := lay [] g.
Definition input_rows : value := board_of [] 9.

Definition solved9 : zgrid :=
  [[5; 3; 4; 6; 7; 8; 9; 1; 2];
   [6; 7; 2; 1; 9; 5; 3; 4; 8];
   [1; 9; 8; 3; 4; 2; 5; 6; 7];
   [8; 5; 9; 7; 6; 1; 4; 2; 3];
   [4; 2; 6; 8; 5; 3; 7; 9; 1];
   [7; 1; 3; 9; 2; 4; 8; 5; 6];
   [9; 6; 1; 5; 3; 7; 2; 8; 4];
   [2; 8; 7; 4; 1; 9; 6; 3; 5];
   [3; 4; 5; 2; 8; 6; 1; 7; 9]]%Z.

Definition puzzle9 : zgrid :=
  [[0; 0; 4; 6; 7; 8; 9; 1; 2];
   [6; 7; 2; 1; 9; 5; 3; 4; 8];
   [1; 9; 8; 3; 4; 2; 5; 6; 7];
   [8; 5; 9; 7; 0; 1; 4; 2; 3];
   [4; 2; 6; 8; 5; 3; 7; 9; 1];
   [7; 1; 3; 9; 2; 4; 8; 5; 6];
   [9; 6; 1; 5; 3; 7; 0; 0; 4];
   [2; 8; 7; 4; 1; 9; 6; 3; 5];
   [3; 4; 5; 2; 8; 6; 1; 7; 0]]%Z.

Definition empty_row : list Z := replicate 9 0%Z.

(** Two 5s in row 0, then a 10. *)
Definition clash9 : zgrid :=
  [5; 5; 10; 0; 0; 0; 0; 0; 0]%Z :: replicate 8 empty_row.

(** Two 1s in column 0. *)
Definition twin9 : zgrid :=
  [1; 0; 0; 0; 0; 0; 0; 0; 0]%Z :: [1; 0; 0; 0; 0; 0; 0; 0; 0]%Z
  :: replicate 7 empty_row.

(** Row 0 is 1 to 8 and a blank, and column 8 holds a 9 below: no digit
    fits the blank. *)
Definition stuck9 : zgrid :=
  [1; 2; 3; 4; 5; 6; 7; 8; 0]%Z :: replicate 4 empty_row
  ++ [[0; 0; 0; 0; 0; 0; 0; 0; 9]%Z] ++ replicate 3 empty_row.

(** A 0 and then a 10 in row 0. *)
Definition ten9 : zgrid :=
  [0; 10; 0; 0; 0; 0; 0; 0; 0]%Z :: replicate 8 empty_row.

(** A solved grid with 2.5 in its first cell. *)
Definition frac9 : grid := updG (inj solved9) 0 0 (VNum (Fin (5 # 2))).

(** A 10 in row 0, and a last row of eight entries. *)
Definition ragged9 : zgrid :=
  [10; 0; 0; 0; 0; 0; 0; 0; 0]%Z :: replicate 7 empty_row
  ++ [replicate 8 0%Z].

(** [m2] returns whatever [m1] returns. *)
Definition le_M {A} (m1 m2 : M A) : Prop :=
  ∀ h a h', m1 h = Ok a h' → m2 h = Ok a h'.

(** ** The solver as a function of the contents of the board *)

(** [for_] on the contents of the board; [None] when the fuel runs out. *)
Fixpoint forG {R} (n lo : nat)
    (body : nat -> grid -> option (option R * grid)) (g : grid)
    : option (option R * grid) :=
  match n with
  | 0 => Some (None, g)
  | S n' =>
      match body lo g with
      | None => None
      | Some (Some x, g') => Some (Some x, g')
      | Some (None, g') => forG n' (S lo) body g'
      end
  end.

(** One digit at an empty cell, lines 123-127. *)
Definition try_digit (solve : grid -> option (bool * grid))
    (row col value : nat) (g : grid) : option (option bool * grid) :=
  if isValidG g row col (of_nat value) then
    match solve (updG g row col (of_nat value)) with
    | None => None
    | Some (true, g') => Some (Some true, g')
    | Some (false, g') => Some (None, updG g' row col zero)
    end
  else Some (None, g).

(** One cell of the scan, lines 121-130. *)
Definition try_cell (solve : grid -> option (bool * grid))
    (row col : nat) (g : grid) : option (option bool * grid) :=
  if strict_eq (cellG g row col) zero then
    match forG 9 1 (try_digit solve row col) g with
    | None => None
    | Some (Some b, g') => Some (Some b, g')
    | Some (None, g') => Some (Some false, g')
    end
  else Some (None, g).

Fixpoint solveG (fuel : nat) (g : grid) : option (bool * grid) :=
  match fuel with
  | 0 => None
  | S fuel' =>
      match forG 9 0 (fun row => forG 9 0 (try_cell (solveG fuel') row)) g with
      | None => None
      | Some (Some b, g') => Some (b, g')
      | Some (None, g') => Some (true, g')
      end
  end.

(** What a caller sees of [solveSudoku] on the rows [g]. *)
Definition solveSudokuG (fuel : nat) (g : grid) : option (string + grid) :=
  if negb (length g =? 9) then Some (inl msg_rows) else
  match validateG g with
  | Some o => Some (verdict [] o)
  | None =>
      match solveG fuel g with
      | None => None
      | Some (true, g') => Some (inr g')
      | Some (false, _) => Some (inl msg_unsolvable)
      end
  end.

(** On the board that [solveSudoku] builds, [m] does what [p] does to the
    contents. *)
Definition refines {A} (h0 : heap) (m : M A) (p : grid -> option (A * grid)) : Prop :=
  ∀ g : grid, length g = 9 →
    match p g with
    | Some (a, g') => m (lay h0 g) = Ok a (lay h0 g') ∧ length g' = 9
    | None => m (lay h0 g) = Timeout
    end.

(** [g'] has the shape of [g] and the same empty cells. *)
Definition alike (g g' : grid) : Prop :=
  length g' = length g ∧
  (∀ r, length (rowG g' r) = length (rowG g r)) ∧
  ∀ r c, strict_eq (cellG g' r c) zero = strict_eq (cellG g r c) zero.

(** The cells before position [k] of the row-major order are not empty. *)
Definition filledG (g : grid) (k : nat) : Prop :=
  ∀ p, p < k → strict_eq (cellG g (p / 9) (p mod 9)) zero = false.

(** ** The puzzle files: [parsePuzzle], lines 8-40 *)

(** A text is a string of code units below 256. *)
Definition LF : ascii := "010"%char.
Definition CR : ascii := "013"%char.

Definition add_char (c : ascii) (pieces : list string) : list string :=
  match pieces with
  | p :: ps => String c p :: ps
  | [] => [String c ""]
  end.

(** [text.split(/\r?\n/)]: a piece ends at each ["\n"] and at each
    ["\r\n"]. *)
Fixpoint split_lines (text : string) : list string :=
  match text with
  | "" => [""]
  | String c rest =>
      if Ascii.eqb c LF then "" :: split_lines rest else
      match rest with
      | String d rest' =>
          if Ascii.eqb c CR && Ascii.eqb d LF then "" :: split_lines rest'
          else add_char c (split_lines rest)
      | "" => add_char c (split_lines rest)
      end
  end.

(** The white space and line terminators that [trim] removes, among the
    code units below 256: tab, line feed, vertical tab, form feed,
    carriage return, space and no-break space. *)
Definition is_space (c : ascii) : bool :=
  let n := nat_of_ascii c in
  (n =? 9) || (n =? 10) || (n =? 11) || (n =? 12) || (n =? 13)
  || (n =? 32) || (n =? 160).

Fixpoint trim_start (s : string) : string :=
  match s with
  | String c s' => if is_space c then trim_start s' else s
  | "" => ""
  end.

Fixpoint trim_end (s : string) : string :=
  match s with
  | String c s' =>
      match trim_end s' with
      | "" => if is_space c then "" else String c ""
      | t => String c t
      end
  | "" => ""
  end.

(** [line.trim()] *)
Definition trim (s : string) : string := trim_end (trim_start s).

(** [\d] *)
Definition is_digit (c : ascii) : bool :=
  let n := nat_of_ascii c in (48 <=? n) && (n <=? 57).

Definition starts_digit (s : string) : bool :=
  match s with
  | String c _ => is_digit c
  | "" => false
  end.

(** [line.match(/\d+/g) || []]: the maximal runs of digits, from left to
    right. *)
Fixpoint digit_runs (s : string) : list string :=
  match s with
  | "" => []
  | String c s' =>
      if is_digit c then
        if starts_digit s' then add_char c (digit_runs s')
        else String c "" :: digit_runs s'
      else digit_runs s'
  end.

(** The integer that a run of digits writes in base ten. *)
Fixpoint digits_value (acc : Z) (run : string) : Z :=
  match run with
  | "" => acc
  | String c run' =>
      digits_value (10 * acc + Z.of_nat (nat_of_ascii c - 48)) run'
  end.

Definition msg_values (row count : nat) : string :=
  "Row " ++ nat_to_string row ++ " has " ++ nat_to_string count
  ++ " values, expected 9.".
Definition msg_count (count : nat) : string :=
  "Puzzle has " ++ nat_to_string count ++ " rows, expected 9.".

(** The object [{ rows, errors }] that [parsePuzzle] returns; the arrays
    are given by their contents. *)
Record parsed := { rows : grid; errors : list string }.

Section Parse.
(** [Number.parseInt(value, 10)] gives the Number for the integer that the
    digits write: the integer itself up to [2 ^ 53], and above that a
    double that the implementation picks. *)
Variable to_number : Z -> number.

(** [matches.map((value) => Number.parseInt(value, 10))] *)
Definition parse_numbers (line : string) : list value :=
  (fun run => VNum (to_number (digits_value 0 run))) <$> digit_runs line.

(** [lines.forEach((line, index) => ...)], from [index] on. *)
Fixpoint each_line (index : nat) (lines : list string)
    (rows : grid) (errors : list string) : grid * list string :=
  match lines with
  | [] => (rows, errors)
  | line :: rest =>
      let numbers := parse_numbers line in
      if length numbers =? 0 then each_line (S index) rest rows errors else
      let errors :=
        if negb (length numbers =? 9)
        then (errors ++ [msg_values (index + 1) (length numbers)])%list
        else errors in
      each_line (S index) rest (rows ++ [numbers])%list errors
  end.

Definition parsePuzzle (text : string) : parsed :=
  let lines :=
    List.filter (fun line => 0 <? String.length line)
                (trim <$> split_lines text) in
  let '(rows, errors) := each_line 0 lines [] [] in
  let errors :=
    if negb (length rows =? 9)
    then (errors ++ [msg_count (length rows)])%list
    else errors in
  {| rows := rows; errors := errors |}.
End Parse.

(** The Number for an integer, when the implementation is exact. *)
Definition exact_number (z : Z) : number := Fin (inject_Z z).

(** The integer part of a number. *)
Definition to_Z (v : value) : Z :=
  match v with
  | VNum (Fin q) => (Qnum q / Z.pos (Qden q))%Z
  | _ => 0%Z
  end.

(** A puzzle file as the repository stores them: the digits of a row
    separated by a space, every row ended by [eol]. *)
Definition digit_char (z : Z) : ascii := ascii_of_nat (48 + Z.to_nat z).

Fixpoint render_row (row : list Z) : string :=
  match row with
  | [] => ""
  | z :: rest =>
      match rest with
      | [] => String (digit_char z) ""
      | _ => String (digit_char z) (String " " (render_row rest))
      end
  end.

Fixpoint render (eol : string) (zg : zgrid) : string :=
  match zg with
  | [] => ""
  | row :: rest => render_row row ++ eol ++ render eol rest
  end.

(** ** The grid on the page: [SudokuGrid], lines 42-80 *)

(** What [if (v)], [!v] and [v || w] test. *)
Definition truthy (v : value) : bool :=
  match v with
  | VUndefined | VNull => false
  | VBool b => b
  | VNum NaN => false
  | VNum (Inf _) => true
  | VNum (Fin q) => negb (Qeq_bool q 0)
  | VStr s => negb (String.eqb s "")
  | VRef _ => true
  end.

(** [v ?? w] *)
Definition nullish (v w : value) : value :=
  match v with
  | VUndefined | VNull => w
  | _ => v
  end.

(** [rows?.[rowIndex]?.[colIndex]], for [rows] that is [undefined] or an
    array of arrays, given by its contents. *)
Definition cell_of (rows : option grid) (rowIndex colIndex : nat) : value :=
  match rows with
  | Some g => cellG g rowIndex colIndex
  | None => VUndefined
  end.

(** A [div] of the grid: its key, the classes that [className] joins with
    a space, and its child. *)
Record cell := { key : string; classes : list string; content : value }.

Definition className (x : cell) : string := String.concat " " (classes x).

(** [if (b) classes.push(name)] *)
Definition push_if (b : bool) (name : string) (classes : list string)
    : list string :=
  if b then (classes ++ [name])%list else classes.

(** The body of the inner loop. *)
Definition grid_cell (rows baseRows : option grid) (rowIndex colIndex : nat)
    : cell :=
  let value := nullish (cell_of rows rowIndex colIndex) zero in
  let baseValue := nullish (cell_of baseRows rowIndex colIndex) zero in
  let classes := ["cell"] in
  let classes := push_if (negb (truthy value)) "empty" classes in
  let classes :=
    push_if (truthy value && negb (truthy baseValue)) "solved" classes in
  let classes := push_if (rowIndex mod 3 =? 0) "thick-top" classes in
  let classes := push_if (colIndex mod 3 =? 0) "thick-left" classes in
  let classes := push_if (rowIndex =? 8) "thick-bottom" classes in
  let classes := push_if (colIndex =? 8) "thick-right" classes in
  {| key := nat_to_string rowIndex ++ "-" ++ nat_to_string colIndex;
     classes := classes;
     content := if truthy value then value else VStr "" |}.

(** The children of the grid, in the order of the pushes. *)
Definition SudokuGrid (rows baseRows : option grid) : list cell :=
  flat_map (fun rowIndex => grid_cell rows baseRows rowIndex <$> seq 0 9)
           (seq 0 9).

(** The two places that draw a grid: [PuzzleCard], line 92, and the
    dialog of [App], lines 335-338, with [solution] the entry of
    [solutions] for the puzzle ([undefined] before a solve, [null] after
    one that failed). *)
Definition card_grid (puzzle : grid) : list cell :=
  SudokuGrid (Some puzzle) None.

Definition dialog_grid (solution : option grid) (puzzle : grid) : list cell :=
  SudokuGrid (Some (default puzzle solution)) (Some puzzle).

(** The values that have no [slice] to call. *)
Definition no_slice (v : value) : Prop :=
  match v with
  | VRef _ | VStr _ => False
  | _ => True
  end.

(** The rows of [puzzle9] with [null] for the last row. *)
Definition null_row_store : heap :=
  input_store (inj puzzle9) ++ [<[8 := VNull]> (row_refs [] 9)].
Definition null_row_rows : value := VRef 10.

(** [puzzle9] as a file. *)
Definition puzzle9_text : string := render (String LF "") puzzle9.

(** * Proofs *)

Local Open Scope list_scope.

(** ** The monad and its loops *)

Section Monad.
Context {A B : Type}.

Lemma bind_Ok (m : M A) (k : A -> M B) h a h' :
  m h = Ok a h' → (m ≫= k) h = k a h'.
Proof. intros E. unfold mbind, M_bind. by rewrite E. Qed.

Lemma bind_Throw (m : M A) (k : A -> M B) h h' :
  m h = Throw h' → (m ≫= k) h = Throw h'.
Proof. intros E. unfold mbind, M_bind. by rewrite E. Qed.

Lemma hoare_bind P (m : M A) Q (k : A -> M B) R :
  hoare P m Q → (∀ a, hoare (Q a) (k a) R) → hoare P (m ≫= k) R.
Proof.
  intros Hm Hk h HP. destruct (Hm h HP) as (a & h1 & E & HQ).
  destruct (Hk a h1 HQ) as (b & h2 & E2 & HR).
  exists b, h2. split; [|done]. by rewrite (bind_Ok _ _ _ _ _ E).
Qed.

Lemma always_bind P (m : M A) (k : A -> M B) h :
  always P (m h) → (∀ a h', P h' → always P (k a h')) →
  always P ((m ≫= k) h).
Proof.
  intros Hm Hk. unfold mbind, M_bind. destruct (m h); simpl in *; auto.
Qed.
End Monad.

Lemma hoare_ret {A} (P : heap -> Prop) (a : A) (Q : A -> heap -> Prop) :
  (∀ h, P h → Q a h) → hoare P (ret a) Q.
Proof. intros H h HP. exists a, h. split; [done|auto]. Qed.

Lemma hoare_conseq {A} (P P' : heap -> Prop) (m : M A) (Q Q' : A -> heap -> Prop) :
  hoare P' m Q' → (∀ h, P h → P' h) → (∀ a h, Q' a h → Q a h) → hoare P m Q.
Proof.
  intros Hm HP HQ h Ph. destruct (Hm h (HP h Ph)) as (a & h' & E & Q'a).
  exists a, h'. auto.
Qed.

(** The rule of [for_]: [I i] holds before the iteration of index [i], and
    [Q r] when the body returns [r]. *)
Lemma hoare_for {R} (I : nat -> heap -> Prop) (Q : R -> heap -> Prop)
    n lo (body : nat -> M (option R)) :
  (∀ i, lo ≤ i < lo + n →
     hoare (I i) (body i)
       (fun r h => match r with None => I (S i) h | Some x => Q x h end)) →
  hoare (I lo) (for_ n lo body)
    (fun r h => match r with None => I (lo + n) h | Some x => Q x h end).
Proof.
  revert lo. induction n as [|n IH]; intros lo Hb.
  - apply hoare_ret. intros h Hh. by rewrite Nat.add_0_r.
  - simpl. eapply hoare_bind; [apply Hb; lia|].
    intros [x|].
    + apply hoare_ret. auto.
    + eapply hoare_conseq; [apply (IH (S lo))| |].
      * intros i Hi. apply Hb. lia.
      * auto.
      * intros [x|] h; [auto|]. by replace (S lo + n) with (lo + S n) by lia.
Qed.

Lemma always_for {R} (P : heap -> Prop) n lo (body : nat -> M (option R)) h :
  (∀ i h, P h → always P (body i h)) → P h → always P (for_ n lo body h).
Proof.
  intros Hb. revert lo h. induction n as [|n IH]; intros lo h Ph; [done|].
  simpl. apply always_bind; [auto|].
  intros [x|] h' Ph'; [done|auto].
Qed.

(** A loop whose body leaves the store alone is [first_some]. *)
Lemma for_first_some {R} n lo (body : nat -> M (option R)) f h :
  (∀ i, lo ≤ i < lo + n → body i h = Ok (f i) h) →
  for_ n lo body h = Ok (first_some n lo f) h.
Proof.
  revert lo. induction n as [|n IH]; intros lo Hb; [done|].
  simpl. rewrite (bind_Ok _ _ _ _ _ (Hb lo ltac:(lia))).
  destruct (f lo); [done|]. apply IH. intros i Hi. apply Hb. lia.
Qed.

Lemma first_some_None {R} n lo (f : nat -> option R) :
  first_some n lo f = None ↔ ∀ i, lo ≤ i < lo + n → f i = None.
Proof.
  revert lo. induction n as [|n IH]; intros lo; simpl.
  - split; [intros _ i Hi; lia|done].
  - destruct (f lo) eqn:E.
    + split; [done|]. intros H. rewrite H in E; [done|lia].
    + rewrite IH. split.
      * intros H i Hi. destruct (decide (i = lo)) as [->|]; [done|].
        apply H. lia.
      * intros H i Hi. apply H. lia.
Qed.

(** The first answer comes from the first index that gives one. *)
Lemma first_some_Some {R} n lo (f : nat -> option R) x :
  first_some n lo f = Some x ↔
  ∃ i, lo ≤ i < lo + n ∧ f i = Some x ∧ ∀ j, lo ≤ j < i → f j = None.
Proof.
  revert lo. induction n as [|n IH]; intros lo; simpl.
  - split; [done|]. intros (i & Hi & _). lia.
  - destruct (f lo) eqn:E.
    + split.
      * intros [= ->]. exists lo. split; [lia|]. split; [done|]. intros; lia.
      * intros (i & Hi & Hx & Hj). destruct (decide (i = lo)) as [->|].
        -- congruence.
        -- rewrite Hj in E; [done|lia].
    + rewrite IH. split.
      * intros (i & Hi & Hx & Hj). exists i. split; [lia|]. split; [done|].
        intros j Hj'. destruct (decide (j = lo)) as [->|]; [done|].
        apply Hj. lia.
      * intros (i & Hi & Hx & Hj). exists i.
        assert (i ≠ lo) by congruence.
        split; [lia|]. split; [done|]. intros j Hj'. apply Hj. lia.
Qed.
(** ** Reading and writing a board *)

Lemma lay_old h0 g l : l < length h0 → lay h0 g !! l = h0 !! l.
Proof. intros H. unfold lay. by rewrite lookup_app_l. Qed.

Lemma lay_row h0 (g : grid) r : r < length g → lay h0 g !! (length h0 + r) = g !! r.
Proof.
  intros H. unfold lay. rewrite lookup_app_r by lia.
  replace (length h0 + r - length h0) with r by lia. by rewrite lookup_app_l.
Qed.

Lemma lay_board h0 (g : grid) :
  lay h0 g !! (length h0 + length g) = Some (row_refs h0 (length g)).
Proof.
  unfold lay. rewrite lookup_app_r by lia.
  replace (length h0 + length g - length h0) with (length g) by lia.
  rewrite lookup_app_r by lia. by rewrite Nat.sub_diag.
Qed.

Lemma row_refs_lookup h0 n r :
  r < n → row_refs h0 n !! r = Some (VRef (length h0 + r)).
Proof.
  intros H. unfold row_refs. rewrite list_lookup_fmap, lookup_seq_lt; done.
Qed.

Lemma rowG_lookup (g : grid) r row : g !! r = Some row → rowG g r = row.
Proof. intros H. unfold rowG. by rewrite H. Qed.

Lemma length_updG (g : grid) r c v : length (updG g r c v) = length g.
Proof. apply length_insert. Qed.

Lemma board_at_lay h0 (g : grid) :
  board_at (lay h0 g) (board_of h0 (length g)) g.
Proof.
  exists (length h0 + length g), (row_refs h0 (length g)).
  split; [done|]. split; [apply lay_board|].
  apply Forall2_same_length_lookup_2.
  - unfold row_refs. by rewrite length_fmap, length_seq.
  - intros r ref row Href Hrow.
    assert (r < length g) by (by eapply lookup_lt_Some).
    rewrite row_refs_lookup in Href by done. injection Href as <-.
    exists (length h0 + r). split; [done|]. by rewrite lay_row.
Qed.

Lemma get_board h board (g : grid) r :
  board_at h board g → r < length g →
  ∃ ref, get board r h = Ok ref h ∧ row_at h ref (rowG g r).
Proof.
  intros (l & refs & -> & Hl & Hrows) Hr.
  destruct (lookup_lt_is_Some_2 g r Hr) as [row Hrow].
  destruct (Forall2_lookup_r _ _ _ _ _ Hrows Hrow) as (ref & Href & Hat).
  exists ref. unfold get. rewrite Hl, Href. simpl.
  by rewrite (rowG_lookup _ _ _ Hrow).
Qed.

Lemma get_row h ref row c :
  row_at h ref row → get ref c h = Ok (default VUndefined (row !! c)) h.
Proof. intros (l & -> & Hl). unfold get. by rewrite Hl. Qed.

(** [board[r][c]] *)
Lemma get_cell {B} h board (g : grid) r c (k : value -> M B) :
  board_at h board g → r < length g →
  (brow ← get board r; x ← get brow c; k x) h = k (cellG g r c) h.
Proof.
  intros Hb Hr. destruct (get_board _ _ _ _ Hb Hr) as (ref & E & Hat).
  rewrite (bind_Ok _ _ _ _ _ E).
  by rewrite (bind_Ok _ _ _ _ _ (get_row _ _ _ c Hat)).
Qed.

(** [board[r][c] = v] on the board that [solveSudoku] builds *)
Lemma set_cell {B} h0 (g : grid) n r c v (k : M B) :
  length g = n → r < n →
  (brow ← get (board_of h0 n) r; set brow c v;; k) (lay h0 g)
  = k (lay h0 (updG g r c v)).
Proof.
  intros <- Hr.
  assert (get (board_of h0 (length g)) r (lay h0 g)
          = Ok (VRef (length h0 + r)) (lay h0 g)) as E.
  { unfold get, board_of. rewrite lay_board, row_refs_lookup; done. }
  rewrite (bind_Ok _ _ _ _ _ E).
  destruct (lookup_lt_is_Some_2 g r Hr) as [row Hrow].
  assert (set (VRef (length h0 + r)) c v (lay h0 g) = Ok tt (lay h0 (updG g r c v))) as E2.
  { unfold set. rewrite lay_row, Hrow by done. f_equal.
    unfold lay, updG. rewrite (rowG_lookup _ _ _ Hrow), length_insert.
    rewrite insert_app_r_alt by lia.
    replace (length h0 + r - length h0) with r by lia.
    by rewrite insert_app_l. }
  by rewrite (bind_Ok _ _ _ _ _ E2).
Qed.

Lemma board_at_lay_n h0 (g : grid) n :
  length g = n → board_at (lay h0 g) (board_of h0 n) g.
Proof. intros <-. apply board_at_lay. Qed.
(** ** [isValid] reads the board and leaves the store alone *)

Lemma box_bound r i : r < 9 → r / 3 * 3 ≤ i < r / 3 * 3 + 3 → i < 9.
Proof.
  intros Hr Hi. assert (r / 3 ≤ 2) by (apply Nat.lt_succ_r, Nat.Div0.div_lt_upper_bound; lia).
  lia.
Qed.

Lemma isValid_run h board (g : grid) row col v :
  board_at h board g → length g = 9 → row < 9 →
  isValid board row col v h = Ok (isValidG g row col v) h.
Proof.
  intros Hb Hg Hr. unfold isValid, isValidG.
  erewrite bind_Ok; cycle 1.
  { apply (for_first_some _ _ _ (fun index =>
      if strict_eq (cellG g row index) v then Some false else
      if strict_eq (cellG g index col) v then Some false else None)).
    intros i Hi. simpl.
    rewrite (get_cell _ _ _ _ _ _ Hb) by lia.
    destruct (strict_eq (cellG g row i) v); [done|].
    rewrite (get_cell _ _ _ _ _ _ Hb) by lia.
    destruct (strict_eq (cellG g i col) v); done. }
  destruct (first_some 9 0 _); [done|].
  erewrite bind_Ok; cycle 1.
  { apply (for_first_some _ _ _ (fun r =>
      first_some 3 (col / 3 * 3) (fun c =>
        if strict_eq (cellG g r c) v then Some false else None))).
    intros r Hri.
    apply (for_first_some _ _ _ (fun c =>
      if strict_eq (cellG g r c) v then Some false else None)).
    intros c Hc.
    rewrite (get_cell _ _ _ _ _ _ Hb) by (rewrite Hg; by eapply box_bound).
    destruct (strict_eq (cellG g r c) v); done. }
  destruct (first_some 3 _ _); done.
Qed.
(** ** The validation loop *)

(** A loop whose body restores the store whenever it goes on. *)
Lemma for_restoring {R} n lo (body : nat -> M (option R)) f h :
  (∀ i, lo ≤ i < lo + n →
     ∃ h', body i h = Ok (f i) h' ∧ (f i = None → h' = h)) →
  ∃ h', for_ n lo body h = Ok (first_some n lo f) h' ∧
        (first_some n lo f = None → h' = h).
Proof.
  revert lo. induction n as [|n IH]; intros lo Hb.
  - by exists h.
  - destruct (Hb lo ltac:(lia)) as (h1 & E & Hh1). simpl.
    rewrite (bind_Ok _ _ _ _ _ E). destruct (f lo) as [x|].
    + by exists h1.
    + rewrite Hh1 by done. apply IH. intros i Hi. apply Hb. lia.
Qed.

Lemma strict_eq_of_Z a b : strict_eq (of_Z a) (of_Z b) = (a =? b)%Z.
Proof.
  simpl. apply eq_true_iff_eq.
  rewrite Qeq_bool_iff, Z.eqb_eq. split.
  - apply inject_Z_injective.
  - by intros ->.
Qed.

Lemma strict_eq_of_nat a b : strict_eq (of_nat a) (of_nat b) = (a =? b).
Proof.
  unfold of_nat. rewrite strict_eq_of_Z.
  apply eq_true_iff_eq. rewrite Z.eqb_eq, Nat.eqb_eq. lia.
Qed.

Lemma not_nine_row h ref row :
  row_at h ref row → not_nine ref h = Ok (negb (length row =? 9)) h.
Proof.
  intros (l & -> & Hl). unfold not_nine.
  assert (isArray (VRef l) h = Ok true h) as E.
  { unfold isArray. rewrite Hl. by rewrite bool_decide_eq_true_2. }
  rewrite (bind_Ok _ _ _ _ _ E). simpl.
  assert (get_length (VRef l) h = Ok (of_nat (length row)) h) as E2.
  { unfold get_length. by rewrite Hl. }
  rewrite (bind_Ok _ _ _ _ _ E2). by rewrite strict_eq_of_nat.
Qed.

Lemma updG_restore (g : grid) r c v :
  c < length (rowG g r) → updG (updG g r c v) r c (cellG g r c) = g.
Proof.
  intros Hc. unfold updG, cellG.
  destruct (g !! r) as [row|] eqn:Hrow.
  - rewrite (rowG_lookup _ _ _ Hrow) in *.
    assert (r < length g) by (by eapply lookup_lt_Some).
    rewrite (rowG_lookup _ r (array_set row c v)) by (by apply list_lookup_insert_eq).
    rewrite list_insert_insert_eq. apply list_insert_id.
    rewrite Hrow. f_equal. unfold array_set.
    destruct (Nat.ltb_spec c (length row)); [|lia].
    rewrite length_insert. destruct (Nat.ltb_spec c (length row)); [|lia].
    rewrite list_insert_insert_eq. symmetry. apply list_insert_id.
    destruct (lookup_lt_is_Some_2 row c Hc) as [x Hx]. by rewrite Hx.
  - unfold rowG in Hc. rewrite Hrow in Hc. simpl in Hc. lia.
Qed.

Lemma cell_run h0 (g : grid) row col :
  length g = 9 → row < 9 → col < 9 → length (rowG g row) = 9 →
  ∃ h',
    (brow ← get (board_of h0 9) row;
     v ← get brow col;
     if negb (isFinite v) || lt v (of_nat 0) || gt v (of_nat 9)
     then ret (Some (Error msg_range)) else
     if negb (strict_eq v zero) then
       brow ← get (board_of h0 9) row;
       set brow col zero;;
       ok ← isValid (board_of h0 9) row col v;
       if negb (ok : bool) then ret (Some (Error msg_conflict)) else
       brow ← get (board_of h0 9) row;
       set brow col v;;
       ret None
     else ret None) (lay h0 g) = Ok (cell_check g row col) h' ∧
    (cell_check g row col = None → h' = lay h0 g).
Proof.
  intros Hg Hr Hc Hrow.
  rewrite (get_cell _ _ _ _ _ _ (board_at_lay_n h0 g 9 Hg)) by lia.
  unfold cell_check, in_range. rewrite negb_involutive.
  destruct (negb (isFinite (cellG g row col)) || _ || _).
  { by eexists. }
  destruct (strict_eq (cellG g row col) zero); simpl.
  { by eexists. }
  rewrite set_cell by (done || lia).
  erewrite bind_Ok; cycle 1.
  { apply isValid_run with (g := updG g row col zero);
      [apply board_at_lay_n|..]; by rewrite ?length_updG. }
  destruct (isValidG _ _ _ _); simpl.
  - rewrite set_cell by (by rewrite ?length_updG).
    rewrite updG_restore by lia. by eexists.
  - by eexists.
Qed.

Lemma validate_run h0 (g : grid) :
  length g = 9 →
  ∃ h', validate (board_of h0 9) (lay h0 g) = Ok (validateG g) h' ∧
        (validateG g = None → h' = lay h0 g).
Proof.
  intros Hg. unfold validate, validateG.
  apply for_restoring. intros row Hr.
  destruct (get_board _ _ _ row (board_at_lay_n h0 g 9 Hg) ltac:(lia))
    as (ref & E & Hat).
  rewrite (bind_Ok _ _ _ _ _ E).
  rewrite (bind_Ok _ _ _ _ _ (not_nine_row _ _ _ Hat)).
  unfold row_check. destruct (Nat.eqb_spec (length (rowG g row)) 9) as [Hrow|]; cbn [negb].
  - apply for_restoring. intros col Hc. apply cell_run; [done|lia|lia|done].
  - by eexists.
Qed.
(** ** Integer grids *)

Lemma wf9_row (zg : zgrid) r :
  wf9 zg → r < 9 → ∃ row, zg !! r = Some row ∧ length row = 9.
Proof.
  intros [Hl Hrows] Hr.
  destruct (lookup_lt_is_Some_2 zg r) as [row Hrow]; [lia|].
  exists row. split; [done|]. by eapply (Forall_lookup_1 _ _ _ _ Hrows).
Qed.

Lemma wf9_cell (zg : zgrid) r c :
  wf9 zg → r < 9 → c < 9 →
  ∃ row, zg !! r = Some row ∧ length row = 9 ∧ row !! c = Some (zcell zg r c).
Proof.
  intros Hwf Hr Hc. destruct (wf9_row zg r Hwf Hr) as (row & Hrow & Hlen).
  exists row. split; [done|]. split; [done|].
  assert (is_Some (row !! c)) as [z Hz] by (apply lookup_lt_is_Some_2; lia).
  unfold zcell. rewrite Hrow. simpl. by rewrite Hz.
Qed.

Lemma length_inj zg : length (inj zg) = length zg.
Proof. unfold inj. by rewrite length_fmap. Qed.

Lemma cellG_inj zg r c :
  wf9 zg → r < 9 → c < 9 → cellG (inj zg) r c = of_Z (zcell zg r c).
Proof.
  intros Hwf Hr Hc. destruct (wf9_cell zg r c Hwf Hr Hc) as (row & Hrow & _ & Hz).
  unfold cellG, rowG, inj. rewrite list_lookup_fmap, Hrow. simpl.
  by rewrite list_lookup_fmap, Hz.
Qed.

Lemma updG_inj zg r c v :
  wf9 zg → r < 9 → c < 9 → updG (inj zg) r c (of_Z v) = inj (zupd zg r c v).
Proof.
  intros Hwf Hr Hc. destruct (wf9_row zg r Hwf Hr) as (row & Hrow & Hlen).
  unfold updG, zupd, rowG, inj. rewrite list_lookup_fmap, Hrow. simpl.
  rewrite list_fmap_insert. f_equal.
  unfold array_set. rewrite length_fmap, Hlen.
  destruct (Nat.ltb_spec c 9); [|lia]. by rewrite list_fmap_insert.
Qed.

Lemma wf9_zupd zg r c v : wf9 zg → wf9 (zupd zg r c v).
Proof.
  intros [Hl Hrows]. unfold zupd. split; [by rewrite length_insert|].
  destruct (zg !! r) as [row|] eqn:Hrow.
  - apply Forall_insert; [done|]. rewrite length_insert.
    by eapply (Forall_lookup_1 _ _ _ _ Hrows).
  - rewrite list_insert_ge; [done|]. by apply lookup_ge_None.
Qed.

Lemma zcell_zupd zg r c v r' c' :
  wf9 zg → r < 9 → c < 9 →
  zcell (zupd zg r c v) r' c'
  = if decide (r' = r ∧ c' = c) then v else zcell zg r' c'.
Proof.
  intros Hwf Hr Hc. destruct (wf9_row zg r Hwf Hr) as (row & Hrow & Hlen).
  unfold zcell, zupd. rewrite Hrow. simpl.
  destruct (decide (r' = r)) as [->|Hne].
  - rewrite list_lookup_insert_eq by (destruct Hwf; lia). simpl.
    destruct (decide (c' = c)) as [->|Hc'].
    + rewrite list_lookup_insert_eq by lia. by rewrite decide_True.
    + rewrite list_lookup_insert_ne by done. rewrite Hrow.
      by rewrite decide_False by tauto.
  - rewrite list_lookup_insert_ne by done. by rewrite decide_False by tauto.
Qed.

(** Grids with the same cells are the same grid. *)
Lemma zgrid_ext (a b : zgrid) :
  wf9 a → wf9 b →
  (∀ r c, r < 9 → c < 9 → zcell a r c = zcell b r c) → a = b.
Proof.
  intros Ha Hb Hcells. apply list_eq_same_length with 9; [apply Hb|apply Ha|].
  intros r ra rb Hr Hra Hrb.
  destruct (wf9_row a r Ha Hr) as (ra' & Hra' & Hla).
  destruct (wf9_row b r Hb Hr) as (rb' & Hrb' & Hlb).
  assert (ra' = ra) as -> by congruence. assert (rb' = rb) as -> by congruence.
  apply list_eq_same_length with 9; [done..|].
  intros c x y Hc Hx Hy. specialize (Hcells r c Hr Hc).
  unfold zcell in Hcells. rewrite Hra, Hrb in Hcells. simpl in Hcells.
  by rewrite Hx, Hy in Hcells.
Qed.

Lemma zupd_restore zg r c v :
  wf9 zg → r < 9 → c < 9 → zupd (zupd zg r c v) r c (zcell zg r c) = zg.
Proof.
  intros Hwf Hr Hc. apply zgrid_ext; [by do 2 apply wf9_zupd|done|].
  intros r' c' Hr' Hc'. rewrite zcell_zupd by (done || by apply wf9_zupd).
  case_decide as H; [by destruct H as [-> ->]|].
  rewrite zcell_zupd by done. by rewrite decide_False.
Qed.

Lemma box_iff r i : r / 3 * 3 ≤ i < r / 3 * 3 + 3 ↔ i / 3 = r / 3.
Proof.
  pose proof (Nat.div_mod_eq r 3). pose proof (Nat.div_mod_eq i 3).
  pose proof (Nat.mod_upper_bound r 3). pose proof (Nat.mod_upper_bound i 3).
  lia.
Qed.

Lemma pos_div r c : c < 9 → (9 * r + c) / 9 = r.
Proof.
  intros. symmetry. apply (Nat.div_unique _ 9 r c); lia.
Qed.

Lemma pos_mod r c : c < 9 → (9 * r + c) mod 9 = c.
Proof.
  intros. symmetry. apply (Nat.mod_unique _ 9 r c); lia.
Qed.

Lemma pos_lt p : p < 81 → p / 9 < 9 ∧ p mod 9 < 9 ∧ p = 9 * (p / 9) + p mod 9.
Proof.
  intros. pose proof (Nat.div_mod_eq p 9). pose proof (Nat.mod_upper_bound p 9).
  lia.
Qed.
(** ** What [isValid] decides *)

Lemma isValidG_true (g : grid) row col v :
  isValidG g row col v = true ↔
  (∀ i, i < 9 → strict_eq (cellG g row i) v = false ∧
                strict_eq (cellG g i col) v = false) ∧
  (∀ r c, row / 3 * 3 ≤ r < row / 3 * 3 + 3 →
          col / 3 * 3 ≤ c < col / 3 * 3 + 3 →
          strict_eq (cellG g r c) v = false).
Proof.
  unfold isValidG.
  destruct (first_some 9 0 _) as [b|] eqn:E1.
  { apply first_some_Some in E1 as (i & Hi & Hf & _).
    assert (b = false ∧ (strict_eq (cellG g row i) v = true ∨
                         strict_eq (cellG g i col) v = true)) as [-> Hor].
    { destruct (strict_eq (cellG g row i) v), (strict_eq (cellG g i col) v);
        simplify_eq; auto. }
    split; [done|]. intros [H _]. destruct (H i ltac:(lia)).
    destruct Hor; congruence. }
  rewrite first_some_None in E1.
  assert (∀ i, i < 9 → strict_eq (cellG g row i) v = false ∧
                       strict_eq (cellG g i col) v = false) as Hline.
  { intros i Hi. specialize (E1 i ltac:(lia)). simpl in E1.
    destruct (strict_eq (cellG g row i) v), (strict_eq (cellG g i col) v);
      simplify_eq; auto. }
  destruct (first_some 3 _ _) as [b|] eqn:E2.
  { apply first_some_Some in E2 as (r & Hr & Hf & _).
    apply first_some_Some in Hf as (c & Hc & Hf & _).
    destruct (strict_eq (cellG g r c) v) eqn:E; [|done].
    injection Hf as <-. split; [done|]. intros [_ H].
    rewrite H in E; [done|lia..]. }
  pose proof (proj1 (first_some_None _ _ _) E2) as E3.
  split; [|done]. intros _. split; [done|].
  intros r c Hr Hc. specialize (E3 r ltac:(lia)). cbv beta in E3.
  pose proof (proj1 (first_some_None _ _ _) E3 c ltac:(lia)) as E4. cbv beta in E4.
  by destruct (strict_eq (cellG g r c) v).
Qed.

Lemma same_unit_sym r c r' c' : same_unit r c r' c' → same_unit r' c' r c.
Proof. unfold same_unit. intros [->|[->|[-> ->]]]; auto. Qed.

(** On a grid of integers [isValid] accepts a digit exactly when no cell
    of the row, the column and the box holds it. *)
Lemma isValid_inj zg r c v :
  wf9 zg → r < 9 → c < 9 →
  isValidG (inj zg) r c (of_Z v) = true ↔
  ∀ r' c', r' < 9 → c' < 9 → same_unit r c r' c' → zcell zg r' c' ≠ v.
Proof.
  intros Hwf Hr Hc. rewrite isValidG_true.
  assert (∀ r' c', r' < 9 → c' < 9 →
    strict_eq (cellG (inj zg) r' c') (of_Z v) = false ↔ zcell zg r' c' ≠ v) as Hcell.
  { intros r' c' Hr' Hc'. rewrite cellG_inj, strict_eq_of_Z by done.
    rewrite <- Z.eqb_neq. done. }
  split.
  - intros [Hline Hbox] r' c' Hr' Hc' [->|[->|[Hbr Hbc]]].
    + apply Hcell; [done..|]. by apply Hline.
    + apply Hcell; [done..|]. by apply Hline.
    + apply Hcell; [done..|]. apply Hbox; by apply box_iff.
  - intros H. split.
    + intros i Hi. split; (apply Hcell; [done..|]); apply H; try done;
        unfold same_unit; auto.
    + intros r' c' Hr' Hc'.
      assert (r' < 9) by (by apply (box_bound r)).
      assert (c' < 9) by (by apply (box_bound c)).
      apply Hcell; [done..|]. apply H; [done..|].
      right. right. by rewrite <- !box_iff.
Qed.

(** ** Conflicts and completions *)

Lemma no_conflict_zupd zg r c v :
  wf9 zg → r < 9 → c < 9 → ¬ conflict zg → v ≠ 0%Z →
  (∀ r' c', r' < 9 → c' < 9 → same_unit r c r' c' → zcell zg r' c' ≠ v) →
  ¬ conflict (zupd zg r c v).
Proof.
  intros Hwf Hr Hc Hno Hv Hvalid
    (r1 & c1 & H1 & H2 & Hnz & r2 & c2 & H3 & H4 & Hne & Hu & Heq).
  rewrite (zcell_zupd zg r c v r1 c1) in Hnz, Heq by done.
  rewrite (zcell_zupd zg r c v r2 c2) in Heq by done.
  destruct (decide (r1 = r ∧ c1 = c)) as [[-> ->]|N1];
    destruct (decide (r2 = r ∧ c2 = c)) as [[-> ->]|N2].
  - done.
  - by eapply (Hvalid r2 c2).
  - eapply (Hvalid r1 c1); [done..| |done]. by apply same_unit_sym.
  - apply Hno. exists r1, c1. split; [done|]. split; [done|].
    split; [done|]. by exists r2, c2.
Qed.

Lemma completion_refl zg : wf9 zg → full zg → ¬ conflict zg → completion zg zg.
Proof. intros. split; [done|]. split; [done|]. split; [done|]. by intros r c _ _ _. Qed.

(** A full grid has one completion, itself. *)
Lemma completion_full zg s :
  wf9 zg → full zg → completion zg s → s = zg.
Proof.
  intros Hwf Hfull (Hs & _ & _ & Hext). apply zgrid_ext; [done..|].
  intros r c Hr Hc. apply Hext; [done..|]. specialize (Hfull r c Hr Hc). cbv beta in Hfull. lia.
Qed.

(** A completion puts at an empty cell a digit that [isValid] accepts. *)
Lemma completion_valid zg s r c :
  completion zg s → r < 9 → c < 9 → zcell zg r c = 0%Z →
  ∀ r' c', r' < 9 → c' < 9 → same_unit r c r' c' →
           zcell zg r' c' ≠ zcell s r c.
Proof.
  intros (Hs & Hfull & Hno & Hext) Hr Hc Hz r' c' Hr' Hc' Hu Heq.
  pose proof (Hfull r c Hr Hc) as Hv. cbv beta in Hv.
  destruct (decide (r' = r ∧ c' = c)) as [[-> ->]|Hne]; [lia|].
  apply Hno. exists r, c. split; [done|]. split; [done|]. split; [lia|].
  exists r', c'. split; [done|]. split; [done|].
  split; [intros [= <- <-]; auto|]. split; [done|].
  rewrite (Hext r' c') by (done || lia). done.
Qed.

Lemma completion_zupd zg s r c :
  wf9 zg → r < 9 → c < 9 → completion zg s →
  completion (zupd zg r c (zcell s r c)) s.
Proof.
  intros Hwf Hr Hc (Hs & Hfull & Hno & Hext).
  split; [done|]. split; [done|]. split; [done|].
  intros r' c' Hr' Hc'. rewrite zcell_zupd by done.
  case_decide as H; [by destruct H as [-> ->]|]. by apply Hext.
Qed.

Lemma completion_of_zupd zg s r c v :
  wf9 zg → r < 9 → c < 9 → zcell zg r c = 0%Z → v ≠ 0%Z →
  completion (zupd zg r c v) s → completion zg s ∧ zcell s r c = v.
Proof.
  intros Hwf Hr Hc Hz Hv (Hs & Hfull & Hno & Hext). split.
  - split; [done|]. split; [done|]. split; [done|].
    intros r' c' Hr' Hc' Hnz. specialize (Hext r' c' Hr' Hc').
    cbv beta in Hext. rewrite zcell_zupd in Hext by done.
    rewrite decide_False in Hext by (intros [-> ->]; done). auto.
  - specialize (Hext r c Hr Hc). cbv beta in Hext.
    rewrite zcell_zupd in Hext by done.
    rewrite decide_True in Hext by done. auto.
Qed.

(** ** The row-major order *)

Lemma length_row_major s : length (row_major s) = 81.
Proof. unfold row_major. by rewrite length_fmap, length_seq. Qed.

Lemma row_major_lookup s p :
  p < 81 → row_major s !! p = Some (zcell s (p / 9) (p mod 9)).
Proof.
  intros Hp. unfold row_major. by rewrite list_lookup_fmap, lookup_seq_lt.
Qed.

Ltac explode_list l H :=
  repeat (destruct l as [|? l]; [discriminate H|]);
  destruct l; [|discriminate H]; clear H.

(** On a 9×9 grid the row-major reading is the rows one after the other. *)
Lemma row_major_concat s : wf9 s → row_major s = concat s.
Proof.
  intros [Hl Hrows].
  explode_list s Hl.
  repeat match goal with
         | H : Forall _ (_ :: _) |- _ =>
             let Hr := fresh "Hr" in
             apply Forall_cons in H as [Hr H]
         end.
  repeat match goal with
         | H : length ?l = 9 |- _ => explode_list l H
         end.
  reflexivity.
Qed.

Lemma lex_le_refl a : lex_le a a.
Proof. induction a; simpl; auto. Qed.

Lemma lex_le_first_diff (a b : list Z) p x y :
  (∀ i, i < p → a !! i = b !! i) →
  a !! p = Some x → b !! p = Some y → (x < y)%Z → lex_le a b.
Proof.
  revert a b. induction p as [|p IH]; intros [|x' a] [|y' b] Hpre Ha Hb Hlt;
    simplify_eq/=; auto.
  right. split.
  - specialize (Hpre 0 ltac:(lia)). by simplify_eq/=.
  - eapply IH; [|done..]. intros i Hi. apply (Hpre (S i)). lia.
Qed.

Lemma lex_le_antisym a b : length a = length b → lex_le a b → lex_le b a → a = b.
Proof.
  revert b. induction a as [|x a IH]; intros [|y b] Hlen Hab Hba;
    simplify_eq/=; [done|].
  destruct Hab as [?|[-> ?]], Hba as [?|[? ?]]; try lia. f_equal. auto.
Qed.

Lemma row_major_inj a b : wf9 a → wf9 b → row_major a = row_major b → a = b.
Proof.
  intros Ha Hb E. apply zgrid_ext; [done..|]. intros r c Hr Hc.
  assert (9 * r + c < 81) as Hp by lia.
  pose proof (row_major_lookup a _ Hp) as Ea.
  pose proof (row_major_lookup b _ Hp) as Eb.
  rewrite E, Eb, pos_div, pos_mod in Ea by done. by injection Ea.
Qed.

(** Two completions that differ first at an empty cell compare as their
    digits there. *)
Lemma lex_le_completions zg s1 s2 r c :
  r < 9 → c < 9 → prefix_filled zg (9 * r + c) →
  completion zg s1 → completion zg s2 →
  (zcell s1 r c < zcell s2 r c)%Z → lex_le (row_major s1) (row_major s2).
Proof.
  intros Hr Hc Hpre (_ & _ & _ & Hext1) (_ & _ & _ & Hext2) Hlt.
  assert (9 * r + c < 81) as Hp by lia.
  eapply (lex_le_first_diff _ _ (9 * r + c)).
  - intros i Hi. rewrite !row_major_lookup by lia. f_equal.
    destruct (pos_lt i ltac:(lia)) as (? & ? & _).
    rewrite Hext1, Hext2; auto.
  - by apply row_major_lookup.
  - by apply row_major_lookup.
  - by rewrite pos_div, pos_mod.
Qed.
(** ** The search *)

Lemma prefix_filled_S zg p :
  prefix_filled zg p → zcell zg (p / 9) (p mod 9) ≠ 0%Z → prefix_filled zg (S p).
Proof.
  intros Hpre Hp q Hq. destruct (decide (q = p)) as [->|]; [done|].
  apply Hpre. lia.
Qed.

Lemma prefix_filled_full zg : digits zg → prefix_filled zg 81 → full zg.
Proof.
  intros Hdig Hpre r c Hr Hc. specialize (Hdig r c Hr Hc). cbv beta in Hdig.
  specialize (Hpre (9 * r + c) ltac:(lia)).
  rewrite pos_div, pos_mod in Hpre by done. lia.
Qed.

Lemma prefix_filled_zupd zg r c v :
  wf9 zg → r < 9 → c < 9 → v ≠ 0%Z →
  prefix_filled zg (9 * r + c) → prefix_filled (zupd zg r c v) (9 * r + c + 1).
Proof.
  intros Hwf Hr Hc Hv Hpre p Hp. rewrite zcell_zupd by done.
  case_decide; [done|]. apply Hpre.
  destruct (decide (p = 9 * r + c)) as [->|]; [|lia].
  rewrite pos_div, pos_mod in * by done. tauto.
Qed.

Lemma digits_zupd zg r c v :
  wf9 zg → r < 9 → c < 9 → (0 ≤ v ≤ 9)%Z → digits zg → digits (zupd zg r c v).
Proof.
  intros Hwf Hr Hc Hv Hdig r' c' Hr' Hc'. rewrite zcell_zupd by done.
  case_decide; [done|]. by apply Hdig.
Qed.

(** [solveBoard] on a consistent board whose first [k] cells are filled:
    with a unit of fuel for every cell that is left and one more, it
    returns [true] and leaves the least completion on the board, or
    returns [false], leaves the board as it was, and there is no
    completion. *)
Lemma solveBoard_spec fuel : ∀ k zg h0,
  wf9 zg → digits zg → ¬ conflict zg → prefix_filled zg k →
  k ≤ 81 → 81 < fuel + k →
  hoare (fun h => h = lay h0 (inj zg))
        (solveBoard fuel (board_of h0 9))
        (search_post h0 zg).
Proof.
  induction fuel as [|fuel IH]; intros k zg h0 Hwf Hdig Hno Hpre Hk Hfuel; [lia|].
  assert (board_at (lay h0 (inj zg)) (board_of h0 9) (inj zg)) as Hat.
  { apply board_at_lay_n. rewrite length_inj. apply Hwf. }
  cbn [solveBoard].
  eapply hoare_bind.
  { eapply hoare_conseq;
      [apply (hoare_for
         (fun row h => h = lay h0 (inj zg) ∧ prefix_filled zg (9 * row))
         (search_post h0 zg))| |intros a h H; exact H].
    2:{ intros h ->. split; [done|]. intros p Hp. lia. }
    intros row Hrow.
    eapply hoare_conseq;
      [apply (hoare_for
         (fun col h => h = lay h0 (inj zg) ∧ prefix_filled zg (9 * row + col))
         (search_post h0 zg))| |].
    2:{ intros h [-> H]. split; [done|]. by rewrite Nat.add_0_r. }
    2:{ intros [b|] h; [done|]. intros [-> H]. split; [done|].
        by replace (9 * S row) with (9 * row + (0 + 9)) by lia. }
    intros col Hcol h [-> Hfilled].
    rewrite (get_cell _ _ _ _ _ _ Hat) by (rewrite length_inj; destruct Hwf; lia).
    rewrite cellG_inj by (done || lia). unfold zero. rewrite strict_eq_of_Z.
    destruct (Z.eqb_spec (zcell zg row col) 0) as [Hz|Hnz]; cycle 1.
    { (* a filled cell: go on *)
      exists None, (lay h0 (inj zg)). split; [done|]. split; [done|].
      replace (9 * row + S col) with (S (9 * row + col)) by lia.
      apply prefix_filled_S; [done|]. by rewrite pos_div, pos_mod by lia. }
    (* the first empty cell *)
    assert (k ≤ 9 * row + col) as Hkp.
    { apply Nat.nlt_ge. intros Hlt. specialize (Hpre _ Hlt).
      rewrite pos_div, pos_mod in Hpre by lia. done. }
    destruct (hoare_for
      (fun v h => h = lay h0 (inj zg) ∧
                  ∀ s, completion zg s → (Z.of_nat v ≤ zcell s row col)%Z)
      (fun b h => search_post h0 zg b h ∧ b = true)
      9 1
      (fun value =>
         ok ← isValid (board_of h0 9) row col (of_nat value);
         if (ok : bool) then
           brow ← get (board_of h0 9) row;
           set brow col (of_nat value);;
           s ← solveBoard fuel (board_of h0 9);
           if (s : bool) then ret (Some true) else
           brow ← get (board_of h0 9) row;
           set brow col zero;;
           ret None
         else ret None)) with (h := lay h0 (inj zg)) as (t & h' & E & Ht).
    { (* one digit *)
      intros v Hv h [-> Hleast].
      rewrite (bind_Ok _ _ _ _ _ (isValid_run _ _ _ row col _ Hat
                 ltac:(rewrite length_inj; apply Hwf) ltac:(lia))).
      unfold of_nat.
      destruct (isValidG (inj zg) row col (of_Z (Z.of_nat v))) eqn:Ev.
      - (* accepted: place it and recurse *)
        pose proof (proj1 (isValid_inj zg row col _ Hwf ltac:(lia) ltac:(lia)) Ev)
          as Hvalid.
        rewrite set_cell by (rewrite ?length_inj; destruct Hwf; lia).
        rewrite updG_inj by (done || lia).
        destruct (IH (9 * row + col + 1) (zupd zg row col (Z.of_nat v)) h0)
          with (h := lay h0 (inj (zupd zg row col (Z.of_nat v))))
          as (b & h1 & E1 & zg' & -> & Hb).
        { by apply wf9_zupd. }
        { apply digits_zupd; (done || lia). }
        { apply no_conflict_zupd; (done || lia). }
        { apply prefix_filled_zupd; (done || lia). }
        { lia. }
        { lia. }
        { done. }
        rewrite (bind_Ok _ _ _ _ _ E1). destruct b.
        + exists (Some true), (lay h0 (inj zg')). split; [done|].
          split; [|done]. exists zg'. split; [done|].
          destruct Hb as [Hcomp Hmin].
          apply completion_of_zupd in Hcomp as [Hcomp Hcell]; [|done|lia..].
          split; [done|]. intros s Hs.
          destruct (Z.le_gt_cases (zcell s row col) (Z.of_nat v)) as [Hle|Hgt].
          * apply Hmin. replace (Z.of_nat v) with (zcell s row col)
              by (specialize (Hleast s Hs); lia).
            apply completion_zupd; (done || lia).
          * apply (lex_le_completions zg _ _ row col); (done || lia).
        + destruct Hb as [-> Hnone].
          rewrite set_cell
            by first [lia | rewrite length_inj; by apply wf9_zupd].
          unfold zero. rewrite updG_inj by (by apply wf9_zupd || lia).
          assert (zupd (zupd zg row col (Z.of_nat v)) row col 0 = zg) as ->.
          { rewrite <- Hz. apply zupd_restore; (done || lia). }
          exists None, (lay h0 (inj zg)). split; [done|]. split; [done|].
          intros s Hs. specialize (Hleast s Hs).
          destruct (decide (zcell s row col = Z.of_nat v)) as [Heq|]; [|lia].
          exfalso. apply (Hnone s). rewrite <- Heq.
          apply completion_zupd; (done || lia).
      - (* refused *)
        exists None, (lay h0 (inj zg)). split; [done|]. split; [done|].
        intros s Hs. specialize (Hleast s Hs).
        destruct (decide (zcell s row col = Z.of_nat v)) as [Heq|]; [|lia].
        exfalso. apply not_true_iff_false in Ev. apply Ev.
        apply isValid_inj; [done|lia..|]. rewrite <- Heq.
        apply completion_valid; (done || lia). }
    { split; [done|]. intros s (_ & Hfull & _).
      specialize (Hfull row col). cbv beta in Hfull. lia. }
    rewrite (bind_Ok _ _ _ _ _ E). destruct t as [b|].
    - destruct Ht as [Hpost ->]. by exists (Some true), h'.
    - destruct Ht as [-> Hleast]. exists (Some false), (lay h0 (inj zg)).
      split; [done|]. exists zg. split; [done|]. split; [done|].
      intros s Hs. pose proof (Hleast s Hs).
      destruct Hs as (_ & Hfull & _).
      specialize (Hfull row col). cbv beta in Hfull. lia. }
  intros [b|].
  - apply hoare_ret. auto.
  - apply hoare_ret. intros h [-> Hfilled]. exists zg. split; [done|].
    assert (full zg) as Hfull by (by apply prefix_filled_full).
    split; [by apply completion_refl|].
    intros s Hs. rewrite (completion_full zg s) by done. apply lex_le_refl.
Qed.

(** ** Copying the input *)

Lemma not_nine_board h rows (g : grid) :
  board_at h rows g → not_nine rows h = Ok (negb (length g =? 9)) h.
Proof.
  intros (l & refs & -> & Hl & Hrows). unfold not_nine.
  assert (isArray (VRef l) h = Ok true h) as E.
  { unfold isArray. rewrite Hl. by rewrite bool_decide_eq_true_2. }
  rewrite (bind_Ok _ _ _ _ _ E). simpl.
  assert (get_length (VRef l) h = Ok (of_nat (length refs)) h) as E2.
  { unfold get_length. by rewrite Hl. }
  rewrite (bind_Ok _ _ _ _ _ E2), strict_eq_of_nat.
  by rewrite (Forall2_length _ _ _ Hrows).
Qed.

Lemma mapM_slice h refs (g : grid) : ∀ pre : heap,
  Forall2 (row_at h) refs g →
  mapM slice refs (h ++ pre)
  = Ok (VRef <$> seq (length h + length pre) (length g)) (h ++ pre ++ g).
Proof.
  intros pre Hrows. revert pre.
  induction Hrows as [|ref row refs g (l & -> & Hl) _ IH]; intros pre.
  - simpl. by rewrite app_nil_r.
  - simpl.
    assert (slice (VRef l) (h ++ pre)
            = Ok (VRef (length h + length pre)) (h ++ (pre ++ [row]))) as E.
    { unfold slice, alloc. rewrite lookup_app_l by (by eapply lookup_lt_Some).
      by rewrite Hl, length_app, <- app_assoc. }
    rewrite (bind_Ok _ _ _ _ _ E), (bind_Ok _ _ _ _ _ (IH _)).
    rewrite length_app, <- app_assoc. simpl.
    by replace (length h + (length pre + 1)) with (S (length h + length pre)) by lia.
Qed.

Lemma array_map_slice h rows (g : grid) :
  board_at h rows g →
  array_map rows slice h = Ok (board_of h (length g)) (lay h g).
Proof.
  intros (l & refs & -> & Hl & Hrows). unfold array_map. rewrite Hl.
  pose proof (mapM_slice h refs g [] Hrows) as E.
  rewrite app_nil_r in E. rewrite (bind_Ok _ _ _ _ _ E).
  unfold alloc, board_of, lay, row_refs. simpl.
  by rewrite length_app, Nat.add_0_r, <- app_assoc.
Qed.

(** ** [solveSudoku] on an array of nine arrays *)

(** The validation loop decides the outcome when it finds a fault. *)
Lemma solveSudoku_invalid fuel h rows (g : grid) o :
  board_at h rows g → length g = 9 → validateG g = Some o →
  ∃ h', solveSudoku fuel rows h = Ok o h'.
Proof.
  intros Hat Hg Ho. unfold solveSudoku.
  rewrite (bind_Ok _ _ _ _ _ (not_nine_board _ _ _ Hat)), Hg. simpl.
  rewrite (bind_Ok _ _ _ _ _ (array_map_slice _ _ _ Hat)), Hg.
  destruct (validate_run h g Hg) as (h' & E & _).
  rewrite (bind_Ok _ _ _ _ _ E), Ho. by exists h'.
Qed.

(** Otherwise the search runs on the copy. *)
Lemma solveSudoku_search fuel h rows (g : grid) :
  board_at h rows g → length g = 9 → validateG g = None →
  solveSudoku fuel rows h
  = (s ← solveBoard fuel (board_of h 9);
     if negb (s : bool) then ret (Error msg_unsolvable)
     else ret (Solution (board_of h 9))) (lay h g).
Proof.
  intros Hat Hg Ho. unfold solveSudoku.
  rewrite (bind_Ok _ _ _ _ _ (not_nine_board _ _ _ Hat)), Hg. simpl.
  rewrite (bind_Ok _ _ _ _ _ (array_map_slice _ _ _ Hat)), Hg.
  destruct (validate_run h g Hg) as (h' & E & Hh').
  rewrite (bind_Ok _ _ _ _ _ E), Ho. by rewrite Hh'.
Qed.

Lemma solveSudoku_rows fuel h rows (g : grid) :
  board_at h rows g → length g ≠ 9 →
  solveSudoku fuel rows h = Ok (Error msg_rows) h.
Proof.
  intros Hat Hg. unfold solveSudoku.
  rewrite (bind_Ok _ _ _ _ _ (not_nine_board _ _ _ Hat)).
  by destruct (Nat.eqb_spec (length g) 9).
Qed.

(** ** Validation of a grid of digits *)

Lemma in_range_of_Z z : in_range (of_Z z) = true ↔ (0 ≤ z ≤ 9)%Z.
Proof.
  unfold in_range, gt, lt, of_nat, of_Z, isFinite. simpl.
  rewrite negb_true_iff, orb_false_iff, !negb_false_iff.
  rewrite !Qle_bool_iff, <- !Zle_Qle. simpl. lia.
Qed.

Lemma isValidG_false (g : grid) row col v :
  row < 9 → col < 9 → isValidG g row col v = false →
  ∃ r c, r < 9 ∧ c < 9 ∧ same_unit row col r c ∧
         strict_eq (cellG g r c) v = true.
Proof.
  intros Hrow Hcol. unfold isValidG.
  destruct (first_some 9 0 _) as [b|] eqn:E1.
  { apply first_some_Some in E1 as (i & Hi & Hf & _). intros _.
    destruct (strict_eq (cellG g row i) v) eqn:Ea.
    { exists row, i. unfold same_unit. split; [done|]. split; [lia|]. auto. }
    destruct (strict_eq (cellG g i col) v) eqn:Eb; [|done].
    exists i, col. unfold same_unit. split; [lia|]. split; [done|]. auto. }
  destruct (first_some 3 _ _) as [b|] eqn:E2; [|done].
  apply first_some_Some in E2 as (r & Hr & Hf & _).
  apply first_some_Some in Hf as (c & Hc & Hf & _). intros _.
  destruct (strict_eq (cellG g r c) v) eqn:E; [|done].
  exists r, c. split; [by apply (box_bound row)|].
  split; [by apply (box_bound col)|]. split; [|done].
  right. right. by rewrite <- !box_iff.
Qed.

Lemma cell_check_inj zg r c :
  wf9 zg → digits zg → r < 9 → c < 9 →
  (cell_conflict zg r c ∧ cell_check (inj zg) r c = Some (Error msg_conflict)) ∨
  (¬ cell_conflict zg r c ∧ cell_check (inj zg) r c = None).
Proof.
  intros Hwf Hdig Hr Hc. unfold cell_check. rewrite cellG_inj by done.
  rewrite (proj2 (in_range_of_Z _) (Hdig r c Hr Hc)). cbn [negb].
  unfold zero. rewrite strict_eq_of_Z.
  destruct (Z.eqb_spec (zcell zg r c) 0) as [Hz|Hnz].
  { right. split; [|done]. by intros [? _]. }
  rewrite updG_inj by done.
  destruct (isValidG _ r c _) eqn:Ev.
  - right. split; [|done]. intros (_ & r' & c' & Hr' & Hc' & Hne & Hu & Heq).
    pose proof (proj1 (isValid_inj _ r c _ (wf9_zupd _ r c 0%Z Hwf) Hr Hc)
                  Ev r' c' Hr' Hc' Hu) as H.
    rewrite zcell_zupd in H by done.
    rewrite decide_False in H by (intros [-> ->]; done). done.
  - left. split; [|done]. split; [done|].
    apply isValidG_false in Ev as (r' & c' & Hr' & Hc' & Hu & E); [|done..].
    rewrite cellG_inj, strict_eq_of_Z in E by (by apply wf9_zupd || done).
    apply Z.eqb_eq in E. rewrite zcell_zupd in E by done.
    case_decide as Hd; [done|].
    exists r', c'. split; [done|]. split; [done|].
    split; [intros [= -> ->]; auto|]. done.
Qed.

(** Validation of a grid of digits reports a conflict or nothing. *)
Lemma validateG_inj zg :
  wf9 zg → digits zg →
  (conflict zg ∧ validateG (inj zg) = Some (Error msg_conflict)) ∨
  (¬ conflict zg ∧ validateG (inj zg) = None).
Proof.
  intros Hwf Hdig.
  assert (∀ r, r < 9 → row_check (inj zg) r = first_some 9 0 (cell_check (inj zg) r))
    as Hrow.
  { intros r Hr. unfold row_check, rowG, inj.
    destruct (wf9_row zg r Hwf Hr) as (row & Hrow & Hlen).
    by rewrite list_lookup_fmap, Hrow; simpl; rewrite length_fmap, Hlen. }
  destruct (validateG (inj zg)) as [o|] eqn:E.
  - left. unfold validateG in E.
    apply first_some_Some in E as (r & Hr & E & _). rewrite Hrow in E by lia.
    apply first_some_Some in E as (c & Hc & E & _).
    destruct (cell_check_inj zg r c Hwf Hdig) as [[Hcf E']|[_ E']]; [lia..| |congruence].
    split; [|congruence]. exists r, c. split; [lia|]. split; [lia|]. done.
  - right. split; [|done]. intros (r & c & Hr & Hc & Hcf).
    unfold validateG in E.
    pose proof (proj1 (first_some_None _ _ _) E r ltac:(lia)) as E1.
    rewrite Hrow in E1 by done.
    pose proof (proj1 (first_some_None _ _ _) E1 c ltac:(lia)) as E2.
    destruct (cell_check_inj zg r c Hwf Hdig) as [[_ E']|[Hn _]]; [lia..|congruence|done].
Qed.
(** ** More fuel changes no result *)

Lemma le_M_refl {A} (m : M A) : le_M m m.
Proof. by intros h a h' E. Qed.

Lemma le_M_bind {A B} (m1 m2 : M A) (k1 k2 : A -> M B) :
  le_M m1 m2 → (∀ a, le_M (k1 a) (k2 a)) → le_M (m1 ≫= k1) (m2 ≫= k2).
Proof.
  intros Hm Hk h b h' E. unfold mbind, M_bind in *.
  destruct (m1 h) as [a h1| |] eqn:E1; [|done..].
  rewrite (Hm _ _ _ E1). by apply Hk.
Qed.

Lemma le_M_for {R} n : ∀ lo (b1 b2 : nat -> M (option R)),
  (∀ i, le_M (b1 i) (b2 i)) → le_M (for_ n lo b1) (for_ n lo b2).
Proof.
  induction n as [|n IH]; intros lo b1 b2 Hb; [apply le_M_refl|].
  simpl. apply le_M_bind; [done|]. intros [x|]; [apply le_M_refl|by apply IH].
Qed.

Lemma solveBoard_more_fuel fuel board :
  le_M (solveBoard fuel board) (solveBoard (S fuel) board).
Proof.
  induction fuel as [|fuel IH]; [by intros h a h' E|].
  cbn [solveBoard]. apply le_M_bind; [|intros; apply le_M_refl].
  apply le_M_for. intros row. apply le_M_for. intros col.
  apply le_M_bind; [apply le_M_refl|]. intros brow.
  apply le_M_bind; [apply le_M_refl|]. intros x.
  destruct (strict_eq x zero); [|apply le_M_refl].
  apply le_M_bind; [|intros; apply le_M_refl].
  apply le_M_for. intros v.
  apply le_M_bind; [apply le_M_refl|]. intros ok.
  destruct ok; [|apply le_M_refl].
  apply le_M_bind; [apply le_M_refl|]. intros brow'.
  apply le_M_bind; [apply le_M_refl|]. intros _.
  apply le_M_bind; [apply IH|]. intros s. apply le_M_refl.
Qed.

Lemma solveBoard_fuel fuel k board :
  le_M (solveBoard fuel board) (solveBoard (fuel + k) board).
Proof.
  induction k as [|k IH].
  - rewrite Nat.add_0_r. apply le_M_refl.
  - intros h a h' E. replace (fuel + S k) with (S (fuel + k)) by lia.
    by apply solveBoard_more_fuel, IH.
Qed.

Lemma solveSudoku_fuel fuel k rows :
  le_M (solveSudoku fuel rows) (solveSudoku (fuel + k) rows).
Proof.
  unfold solveSudoku.
  apply le_M_bind; [apply le_M_refl|]. intros bad.
  destruct bad; [apply le_M_refl|].
  apply le_M_bind; [apply le_M_refl|]. intros board.
  apply le_M_bind; [apply le_M_refl|]. intros [o|]; [apply le_M_refl|].
  apply le_M_bind; [apply solveBoard_fuel|]. intros s. apply le_M_refl.
Qed.

(** ** The outcome of [solveSudoku] on a grid of digits *)

Lemma solveSudoku_grid fuel k h rows zg :
  board_at h rows (inj zg) → wf9 zg → digits zg →
  prefix_filled zg k → k ≤ 81 → 81 < fuel + k →
  ∃ o h', solveSudoku fuel rows h = Ok o h' ∧
    ((conflict zg ∧ o = Error msg_conflict) ∨
     (¬ conflict zg ∧ (∀ s, ¬ completion zg s) ∧ o = Error msg_unsolvable) ∨
     (¬ conflict zg ∧ ∃ s, least_completion zg s ∧
        o = Solution (board_of h 9) ∧ h' = lay h (inj s))).
Proof.
  intros Hat Hwf Hdig Hpre Hk Hfuel.
  assert (length (inj zg) = 9) as Hlen by (rewrite length_inj; apply Hwf).
  destruct (validateG_inj zg Hwf Hdig) as [[Hc E]|[Hn E]].
  - destruct (solveSudoku_invalid fuel _ _ _ _ Hat Hlen E) as [h' E'].
    exists (Error msg_conflict), h'. auto.
  - rewrite (solveSudoku_search fuel _ _ _ Hat Hlen E).
    destruct (solveBoard_spec fuel k zg h Hwf Hdig Hn Hpre Hk Hfuel
                (lay h (inj zg)) eq_refl) as (b & h' & E' & zg' & -> & Hb).
    rewrite (bind_Ok _ _ _ _ _ E'). destruct b; simpl.
    + eexists _, _. split; [done|]. right. right. split; [done|].
      by exists zg'.
    + destruct Hb as [-> Hnone]. eexists _, _. split; [done|]. right. left. auto.
Qed.

Lemma board_at_solution h s :
  wf9 s → board_at (lay h (inj s)) (board_of h 9) (inj s).
Proof. intros Hs. apply board_at_lay_n. rewrite length_inj. apply Hs. Qed.

(** The least completion is unique. *)
Lemma least_completion_unique zg s1 s2 :
  least_completion zg s1 → least_completion zg s2 → s1 = s2.
Proof.
  intros [H1 M1] [H2 M2]. apply row_major_inj; [apply H1|apply H2|].
  apply lex_le_antisym; [by rewrite !length_row_major|auto..].
Qed.

(** ** The claims on grids of digits *)

(** C1: on a 9×9 grid of integers in [0, 9] without a conflict, a solution
    that [solveSudoku] returns is a 9×9 grid with every cell in 1–9, no
    two equal values in a row, a column or a box, and every non-zero cell
    of the input unchanged. *)
Theorem solveSudoku_solution_valid fuel h rows zg b h' :
  board_at h rows (inj zg) → wf9 zg → digits zg → ¬ conflict zg →
  solveSudoku fuel rows h = Ok (Solution b) h' →
  ∃ s, board_at h' b (inj s) ∧
       wf9 s ∧ full s ∧ ¬ conflict s ∧ extends zg s.
Proof.
  intros Hat Hwf Hdig Hno E. apply (solveSudoku_fuel fuel 82) in E.
  destruct (solveSudoku_grid (fuel + 82) 0 h rows zg Hat Hwf Hdig)
    as (o & h1 & E1 & [[Hc _]|[(_ & _ & ->)|(_ & s & [Hs _] & -> & ->)]]);
    [intros p Hp; lia|lia|lia|done|congruence|].
  rewrite E in E1. injection E1 as -> ->.
  exists s. split; [|done]. apply board_at_solution, Hs.
Qed.

(** C2: on a 9×9 grid of integers in [0, 9] without a conflict,
    [solveSudoku] returns "No solution found." exactly when no assignment
    of digits to the empty cells satisfies the constraints. *)
Theorem solveSudoku_unsolvable_iff fuel h rows zg :
  board_at h rows (inj zg) → wf9 zg → digits zg → ¬ conflict zg →
  82 ≤ fuel →
  ∃ o h', solveSudoku fuel rows h = Ok o h' ∧
          (o = Error msg_unsolvable ↔ ¬ ∃ s, completion zg s).
Proof.
  intros Hat Hwf Hdig Hno Hfuel.
  destruct (solveSudoku_grid fuel 0 h rows zg Hat Hwf Hdig)
    as (o & h1 & E1 & [[Hc _]|[(_ & Hnone & ->)|(_ & s & [Hs _] & -> & ->)]]);
    [intros p Hp; lia|lia|lia|done|..]; eexists _, _; (split; [done|]).
  - split; [|done]. intros _ [s Hs]. by apply (Hnone s).
  - split; [done|]. intros Hnone. exfalso. apply Hnone. by exists s.
Qed.

(** C6: on a 9×9 grid of integers in [0, 9], [solveSudoku] returns
    "Puzzle has conflicting values." exactly when two distinct cells of a
    row, a column or a box hold the same non-zero value. *)
Theorem solveSudoku_conflict_iff fuel h rows zg :
  board_at h rows (inj zg) → wf9 zg → digits zg →
  (conflict zg → ∃ h', solveSudoku fuel rows h = Ok (Error msg_conflict) h') ∧
  (∀ h', solveSudoku fuel rows h = Ok (Error msg_conflict) h' → conflict zg).
Proof.
  intros Hat Hwf Hdig.
  assert (length (inj zg) = 9) as Hlen by (rewrite length_inj; apply Hwf).
  destruct (validateG_inj zg Hwf Hdig) as [[Hc E]|[Hn E]].
  - split; [|done]. intros _. by apply (solveSudoku_invalid fuel _ _ _ _ Hat Hlen E).
  - split; [done|]. intros h'.
    rewrite (solveSudoku_search fuel _ _ _ Hat Hlen E).
    unfold mbind, M_bind. destruct (solveBoard _ _ _) as [[] ?| |]; done.
Qed.

(** C7: on a valid grid without a conflict that has a completion,
    [solveSudoku] returns the completion that is least in the
    lexicographic order of the 81 cells read row by row. *)
Theorem solveSudoku_least_completion fuel h rows zg :
  board_at h rows (inj zg) → wf9 zg → digits zg → ¬ conflict zg →
  (∃ s, completion zg s) → 82 ≤ fuel →
  ∃ b h' s, solveSudoku fuel rows h = Ok (Solution b) h' ∧
            board_at h' b (inj s) ∧ completion zg s ∧
            ∀ s', completion zg s' → lex_le (row_major s) (row_major s').
Proof.
  intros Hat Hwf Hdig Hno [s0 Hs0] Hfuel.
  destruct (solveSudoku_grid fuel 0 h rows zg Hat Hwf Hdig)
    as (o & h1 & E1 & [[Hc _]|[(_ & Hnone & _)|(_ & s & [Hs Hmin] & -> & ->)]]);
    [intros p Hp; lia|lia|lia|done|by destruct (Hnone s0)|].
  exists (board_of h 9), (lay h (inj s)), s. split; [done|].
  split; [apply board_at_solution, Hs|]. done.
Qed.

(** C8: on a 9×9 board, for an empty cell [(r, c)] and a digit [d] in 1–9,
    [isValid] returns [true] exactly when no cell of row [r], of column
    [c] and of the box of [(r, c)] holds [d], and leaves the store as it
    was. *)
Theorem isValid_correct h board zg r c d :
  board_at h board (inj zg) → wf9 zg → r < 9 → c < 9 →
  (1 ≤ d ≤ 9)%Z → zcell zg r c = 0%Z →
  ∃ b, isValid board r c (of_Z d) h = Ok b h ∧
       (b = true ↔
        ∀ r' c', r' < 9 → c' < 9 → same_unit r c r' c' → zcell zg r' c' ≠ d).
Proof.
  intros Hat Hwf Hr Hc _ _. exists (isValidG (inj zg) r c (of_Z d)). split.
  - apply isValid_run; [done| |done]. rewrite length_inj. apply Hwf.
  - by apply isValid_inj.
Qed.

(** C10: on a full 9×9 grid of digits 1–9 without a conflict,
    [solveSudoku] returns the grid itself, after one call of
    [solveBoard]. *)
Theorem solveSudoku_full_identity fuel h rows zg :
  board_at h rows (inj zg) → wf9 zg → full zg → ¬ conflict zg →
  1 ≤ fuel →
  ∃ b h', solveSudoku fuel rows h = Ok (Solution b) h' ∧
          board_at h' b (inj zg).
Proof.
  intros Hat Hwf Hfull Hno Hfuel.
  assert (digits zg) as Hdig.
  { intros r c Hr Hc. specialize (Hfull r c Hr Hc). cbv beta in *. lia. }
  assert (completion zg zg) as Hzg by (by apply completion_refl).
  destruct (solveSudoku_grid fuel 81 h rows zg Hat Hwf Hdig)
    as (o & h1 & E1 & [[Hc _]|[(_ & Hnone & _)|(_ & s & [Hs Hmin] & -> & ->)]]);
    [|lia|lia|done|by destruct (Hnone zg)|].
  { intros p Hp. destruct (pos_lt p Hp) as (Hr & Hc & _).
    specialize (Hfull _ _ Hr Hc). cbv beta in *. lia. }
  rewrite (completion_full zg s Hwf Hfull Hs) in *.
  exists (board_of h 9), (lay h (inj zg)). split; [done|].
  by apply board_at_solution.
Qed.
(** ** The caller's arrays are left alone *)

Lemma always_mono {A} (P Q : heap -> Prop) (r : res A) :
  (∀ h, P h → Q h) → always P r → always Q r.
Proof. intros H. destruct r; simpl; auto. Qed.

Lemma always_get (P : heap -> Prop) o i h : P h → always P (get o i h).
Proof.
  intros Ph. unfold get. destruct o as [| | | | s |l]; simpl; try done.
  - by destruct (String.get i s).
  - by destruct (h !! l).
Qed.

Lemma always_not_nine (P : heap -> Prop) o h : P h → always P (not_nine o h).
Proof.
  intros Ph. unfold not_nine. apply always_bind.
  - by destruct o.
  - intros [] h1 P1; simpl; [|done]. apply always_bind; [|done].
    unfold get_length. destruct o as [| | | | s |l]; simpl; try done.
    by destruct (h1 !! l).
Qed.

Lemma always_isValid (P : heap -> Prop) board row col v h :
  P h → always P (isValid board row col v h).
Proof.
  intros Ph. unfold isValid. apply always_bind.
  - apply always_for; [|done]. intros i h1 P1.
    apply always_bind; [by apply always_get|]. intros brow h2 P2.
    apply always_bind; [by apply always_get|]. intros x h3 P3.
    destruct (strict_eq x v); [done|].
    apply always_bind; [by apply always_get|]. intros bidx h4 P4.
    apply always_bind; [by apply always_get|]. intros y h5 P5.
    by destruct (strict_eq y v).
  - intros [b|] h1 P1; [done|]. apply always_bind.
    + apply always_for; [|done]. intros r h2 P2.
      apply always_for; [|done]. intros c h3 P3.
      apply always_bind; [by apply always_get|]. intros br h4 P4.
      apply always_bind; [by apply always_get|]. intros z h5 P5.
      by destruct (strict_eq z v).
    + by intros [b|] h2 P2.
Qed.

Section Frame.
Variables (h0 : heap) (bl : nat) (brefs : list value).
Hypothesis Hbl : length h0 ≤ bl.
Hypothesis Hrefs : Forall (own_ref h0 bl) brefs.

Lemma owns_get_board row h :
  owns h0 bl brefs h →
  ∃ brow, get (VRef bl) row h = Ok brow h ∧ own_ref h0 bl brow.
Proof.
  intros [_ Hb]. unfold get. rewrite Hb.
  exists (default VUndefined (brefs !! row)). split; [done|].
  destruct (brefs !! row) as [b|] eqn:E; [|done].
  by eapply (Forall_lookup_1 _ _ _ _ Hrefs).
Qed.

Lemma owns_set brow col v h :
  owns h0 bl brefs h → own_ref h0 bl brow →
  always (owns h0 bl brefs) (set brow col v h).
Proof.
  intros [[k ->] Hb] Hown. unfold set.
  destruct brow as [| | | | |l]; try (by split; [exists k|]).
  destruct ((h0 ++ k) !! l) as [a|] eqn:E; [|by split; [exists k|]].
  destruct Hown as [Hl Hne]. split.
  - rewrite insert_app_r_alt by done. by eexists.
  - by rewrite list_lookup_insert_ne.
Qed.

Lemma owns_solveBoard fuel : ∀ h,
  owns h0 bl brefs h → always (owns h0 bl brefs) (solveBoard fuel (VRef bl) h).
Proof.
  induction fuel as [|fuel IH]; intros h Hh; [done|].
  cbn [solveBoard]. apply always_bind.
  - apply always_for; [|done]. intros row h1 H1.
    apply always_for; [|done]. intros col h2 H2.
    destruct (owns_get_board row h2 H2) as (brow & E & Hown).
    rewrite (bind_Ok _ _ _ _ _ E).
    apply always_bind; [by apply always_get|]. intros x h3 H3.
    destruct (strict_eq x zero); [|done].
    apply always_bind.
    + apply always_for; [|done]. intros v h4 H4.
      apply always_bind; [by apply always_isValid|]. intros ok h5 H5.
      destruct ok; [|done].
      destruct (owns_get_board row h5 H5) as (brow5 & E5 & Hown5).
      rewrite (bind_Ok _ _ _ _ _ E5).
      apply always_bind; [by apply owns_set|]. intros _ h6 H6.
      apply always_bind; [by apply IH|]. intros s h7 H7.
      destruct s; [done|].
      destruct (owns_get_board row h7 H7) as (brow7 & E7 & Hown7).
      rewrite (bind_Ok _ _ _ _ _ E7).
      apply always_bind; [by apply owns_set|]. by intros _ h8 H8.
    + by intros [b|] h4 H4.
  - by intros [b|] h1 H1.
Qed.

Lemma owns_validate h :
  owns h0 bl brefs h → always (owns h0 bl brefs) (validate (VRef bl) h).
Proof.
  intros Hh. unfold validate.
  apply always_for; [|done]. intros row h1 H1.
  destruct (owns_get_board row h1 H1) as (brow & E & Hown).
  rewrite (bind_Ok _ _ _ _ _ E).
  apply always_bind; [by apply always_not_nine|]. intros bad h2 H2.
  destruct bad; [done|].
  apply always_for; [|done]. intros col h3 H3.
  destruct (owns_get_board row h3 H3) as (brow3 & E3 & Hown3).
  rewrite (bind_Ok _ _ _ _ _ E3).
  apply always_bind; [by apply always_get|]. intros v h4 H4.
  destruct (negb (isFinite v) || _ || _); [done|].
  destruct (negb (strict_eq v zero)); [|done].
  destruct (owns_get_board row h4 H4) as (brow4 & E4 & Hown4).
  rewrite (bind_Ok _ _ _ _ _ E4).
  apply always_bind; [by apply owns_set|]. intros _ h5 H5.
  apply always_bind; [by apply always_isValid|]. intros ok h6 H6.
  destruct ok; [|done]. simpl.
  destruct (owns_get_board row h6 H6) as (brow6 & E6 & Hown6).
  rewrite (bind_Ok _ _ _ _ _ E6).
  apply always_bind; [by apply owns_set|]. by intros _ h7 H7.
Qed.
End Frame.

(** [rows.map((row) => row.slice())] only allocates, and the rows of the
    new board are strings or fresh arrays. *)
Lemma mapM_slice_fresh vs : ∀ h,
  match mapM slice vs h with
  | Ok bs h' =>
      h `prefix_of` h' ∧
      Forall (fun b => match b with
                       | VRef l => length h ≤ l < length h'
                       | _ => True
                       end) bs
  | Throw h' => h `prefix_of` h'
  | Timeout => False
  end.
Proof.
  induction vs as [|v vs IH]; intros h; simpl.
  { split; [done|constructor]. }
  unfold mbind, M_bind.
  assert (slice v h = Throw h ∨ (∃ s, v = VStr s ∧ slice v h = Ok v h) ∨
          (∃ a, slice v h = Ok (VRef (length h)) (h ++ [a]))) as Hs.
  { unfold slice, alloc. destruct v as [| | | | s |l]; auto.
    - right. left. by exists s.
    - destruct (h !! l) as [a|]; [|by left]. right. right. by exists a. }
  destruct Hs as [->|[(s & -> & ->)|[a ->]]]; [done|..].
  - specialize (IH h). destruct (mapM slice vs h) as [bs h'| |]; [|done..].
    destruct IH as [Hpre Hbs]. simpl. split; [done|]. by constructor.
  - specialize (IH (h ++ [a])).
    destruct (mapM slice vs (h ++ [a])) as [bs h'| |]; [|by eapply prefix_app_l|done].
    destruct IH as [Hpre Hbs]. simpl.
    pose proof (prefix_length _ _ Hpre) as Hlen. rewrite length_app in *. simpl in *.
    split; [by eapply prefix_app_l|]. constructor; [lia|].
    eapply Forall_impl; [done|]. intros [| | | | |l]; simpl; lia.
Qed.

Lemma array_map_slice_fresh rows h :
  match array_map rows slice h with
  | Ok b h' =>
      ∃ bs h2, b = VRef (length h2) ∧ h' = h2 ++ [bs] ∧ h `prefix_of` h2 ∧
               Forall (own_ref h (length h2)) bs
  | Throw h' => h `prefix_of` h'
  | Timeout => False
  end.
Proof.
  unfold array_map. destruct rows as [| | | | |l]; try done.
  destruct (h !! l) as [vs|]; [|done].
  pose proof (mapM_slice_fresh vs h) as Hm.
  unfold mbind, M_bind. destruct (mapM slice vs h) as [bs h2| |]; [|done..].
  destruct Hm as [H2 Hbs]. unfold alloc. exists bs, h2.
  split; [done|]. split; [done|]. split; [done|].
  eapply Forall_impl; [done|]. intros [| | | | |l']; simpl; lia.
Qed.

Lemma solveSudoku_prefix fuel rows h :
  always (fun h' => h `prefix_of` h') (solveSudoku fuel rows h).
Proof.
  unfold solveSudoku.
  apply always_bind; [by apply always_not_nine|]. intros bad h1 H1.
  destruct bad; [done|].
  pose proof (array_map_slice_fresh rows h1) as Hm.
  unfold mbind at 1, M_bind at 1.
  destruct (array_map rows slice h1) as [b h'|h'|]; [|by simpl; etrans|done].
  destruct Hm as (bs & h2 & -> & -> & H2 & Hbs).
  pose proof (prefix_length _ _ H1) as L1. pose proof (prefix_length _ _ H2) as L2.
  assert (owns h (length h2) bs (h2 ++ [bs])) as Hown.
  { split.
    - etrans; [done|]. etrans; [done|]. by apply prefix_app_r.
    - by rewrite lookup_app_r, Nat.sub_diag by lia. }
  assert (Forall (own_ref h (length h2)) bs) as Hrefs.
  { eapply Forall_impl; [done|]. intros [| | | | |l']; simpl; lia. }
  apply always_mono with (P := owns h (length h2) bs);
    [intros h' [Hp _]; exact Hp|].
  apply always_bind.
  { apply owns_validate; (done || lia). }
  intros [o|] h3 H3; [done|].
  apply always_bind.
  { apply owns_solveBoard; (done || lia). }
  by intros [] h4 H4.
Qed.
(** ** The checks of the validation loop, cell by cell *)

Lemma in_range_iff v : in_range v = true ↔ number_0_9 v.
Proof.
  unfold in_range, number_0_9, gt, lt, isFinite, of_nat, of_Z.
  destruct v as [| | |[| |q]| |]; simpl;
    try (split; [done|intros (q' & [=] & _)]).
  change (inject_Z (Z.of_nat 0)) with 0%Q.
  change (inject_Z (Z.of_nat 9)) with 9%Q.
  destruct (Qle_bool 0 q) eqn:E0, (Qle_bool q 9) eqn:E9; simpl.
  - split; [|done]. intros _. exists q. by rewrite <- !Qle_bool_iff.
  - split; [done|]. intros (q' & [= <-] & _ & H9).
    apply Qle_bool_iff in H9. congruence.
  - split; [done|]. intros (q' & [= <-] & H0 & _).
    apply Qle_bool_iff in H0. congruence.
  - split; [done|]. intros (q' & [= <-] & H0 & _).
    apply Qle_bool_iff in H0. congruence.
Qed.

Lemma num_eq_sym a b : num_eq a b = num_eq b a.
Proof.
  destruct a as [| |p], b as [| |q]; simpl; try done.
  - by destruct negative, negative0.
  - apply eq_true_iff_eq. rewrite !Qeq_bool_iff. split; by intros ->.
Qed.

Lemma strict_eq_sym a b : strict_eq a b = strict_eq b a.
Proof.
  destruct a, b; simpl; try done.
  - by destruct b, b0.
  - apply num_eq_sym.
  - apply String.eqb_sym.
  - apply Nat.eqb_sym.
Qed.

Lemma cellG_updG (g : grid) r c v r' c' :
  r < length g → c < length (rowG g r) →
  cellG (updG g r c v) r' c'
  = if decide (r' = r ∧ c' = c) then v else cellG g r' c'.
Proof.
  intros Hr Hc. unfold cellG, updG, rowG at 1, array_set.
  destruct (Nat.ltb_spec c (length (rowG g r))); [|lia].
  destruct (decide (r' = r)) as [->|Hne].
  - rewrite list_lookup_insert_eq by done. simpl.
    destruct (decide (c' = c)) as [->|Hc'].
    + rewrite list_lookup_insert_eq by done. by rewrite decide_True.
    + rewrite list_lookup_insert_ne by done. by rewrite decide_False by tauto.
  - rewrite list_lookup_insert_ne by done. by rewrite decide_False by tauto.
Qed.

(** [isValid] accepts a value exactly when no cell of the row, the column
    and the box holds it. *)
Lemma isValidG_units (g : grid) r c v :
  r < 9 → c < 9 →
  isValidG g r c v = true ↔
  ∀ r' c', r' < 9 → c' < 9 → same_unit r c r' c' →
           strict_eq (cellG g r' c') v = false.
Proof.
  intros Hr Hc. split.
  - intros Hv r' c' Hr' Hc' Hu.
    destruct (strict_eq (cellG g r' c') v) eqn:E; [|done].
    apply isValidG_true in Hv as [Hline Hbox].
    destruct Hu as [->|[->|[Hbr Hbc]]].
    + destruct (Hline c' Hc'). congruence.
    + destruct (Hline r' Hr'). congruence.
    + rewrite Hbox in E; [done|by apply box_iff..].
  - intros H. destruct (isValidG g r c v) eqn:E; [done|].
    apply isValidG_false in E as (r' & c' & Hr' & Hc' & Hu & E); [|done..].
    by rewrite H in E.
Qed.

(** The conflict check at a cell: clear it, ask [isValid], restore it. *)
Lemma conflict_check (g : grid) r c :
  r < 9 → c < 9 → r < length g → c < length (rowG g r) →
  strict_eq (cellG g r c) zero = false →
  if isValidG (updG g r c zero) r c (cellG g r c)
  then ¬ clash g r c else clash g r c.
Proof.
  intros Hr Hc Hrg Hcg Hnz.
  destruct (isValidG _ r c _) eqn:Ev.
  - pose proof (proj1 (isValidG_units _ r c _ Hr Hc) Ev) as H.
    intros (r' & c' & Hr' & Hc' & Hne & Hu & E).
    specialize (H r' c' Hr' Hc' Hu). rewrite cellG_updG in H by done.
    rewrite decide_False in H by (intros [-> ->]; done). congruence.
  - apply isValidG_false in Ev as (r' & c' & Hr' & Hc' & Hu & E); [|done..].
    rewrite cellG_updG in E by done. case_decide as Hd.
    { rewrite strict_eq_sym in E. congruence. }
    exists r', c'. split; [done|]. split; [done|].
    split; [intros [= -> ->]; auto|]. done.
Qed.

(** What a cell's checks answer. *)
Lemma cell_check_cases (g : grid) r c :
  r < 9 → c < 9 → r < length g → c < length (rowG g r) →
  (¬ number_0_9 (cellG g r c) ∧ cell_check g r c = Some (Error msg_range)) ∨
  (number_0_9 (cellG g r c) ∧ strict_eq (cellG g r c) zero = false ∧
   clash g r c ∧ cell_check g r c = Some (Error msg_conflict)) ∨
  (cell_ok g r c ∧ cell_check g r c = None).
Proof.
  intros Hr Hc Hrg Hcg. unfold cell_check, cell_ok.
  destruct (in_range (cellG g r c)) eqn:Ein; cbn [negb].
  2:{ left. split; [|done]. rewrite <- in_range_iff. congruence. }
  apply in_range_iff in Ein. right.
  destruct (strict_eq (cellG g r c) zero) eqn:Ez.
  { right. auto. }
  pose proof (conflict_check g r c Hr Hc Hrg Hcg Ez) as Hcheck.
  destruct (isValidG _ r c _).
  - right. auto.
  - left. auto.
Qed.
(** ** The first check that fails decides *)

Lemma cell_ok_check (g : grid) r c :
  r < 9 → c < 9 → r < length g → c < length (rowG g r) →
  cell_ok g r c → cell_check g r c = None.
Proof.
  intros Hr Hc Hrg Hcg [Hnum Hok].
  destruct (cell_check_cases g r c Hr Hc Hrg Hcg)
    as [[Hn _]|[(_ & Hnz & Hcl & _)|[_ E]]]; [done| |done].
  destruct Hok; [congruence|done].
Qed.

Lemma row_check_cells (g : grid) r :
  length (rowG g r) = 9 → row_check g r = first_some 9 0 (cell_check g r).
Proof. intros Hlen. unfold row_check. by rewrite Hlen. Qed.

Lemma row_ok_check (g : grid) r :
  length g = 9 → r < 9 → row_ok g r → row_check g r = None.
Proof.
  intros Hg Hr [Hlen Hcells]. rewrite row_check_cells by done.
  apply first_some_None. intros c Hc. apply cell_ok_check; (lia || auto with lia).
Qed.

Lemma validateG_row (g : grid) r o :
  length g = 9 → r < 9 → (∀ r', r' < r → row_ok g r') →
  row_check g r = Some o → validateG g = Some o.
Proof.
  intros Hg Hr Hbefore E. apply first_some_Some. exists r.
  split; [lia|]. split; [done|]. intros r' Hr'.
  apply row_ok_check; [done|lia|]. apply Hbefore. lia.
Qed.

Lemma row_check_cell (g : grid) r c o :
  length g = 9 → r < 9 → c < 9 → length (rowG g r) = 9 →
  (∀ c', c' < c → cell_ok g r c') →
  cell_check g r c = Some o → row_check g r = Some o.
Proof.
  intros Hg Hr Hc Hlen Hbefore E. rewrite row_check_cells by done.
  apply first_some_Some. exists c. split; [lia|]. split; [done|].
  intros c' Hc'. apply cell_ok_check; [lia..|]. apply Hbefore. lia.
Qed.

Lemma row_check_length (g : grid) r :
  length (rowG g r) ≠ 9 → row_check g r = Some (Error (msg_row r)).
Proof.
  intros Hlen. unfold row_check.
  by destruct (Nat.eqb_spec (length (rowG g r)) 9).
Qed.

Lemma cell_check_range (g : grid) r c :
  r < 9 → c < 9 → r < length g → c < length (rowG g r) →
  ¬ number_0_9 (cellG g r c) → cell_check g r c = Some (Error msg_range).
Proof.
  intros Hr Hc Hrg Hcg Hn.
  by destruct (cell_check_cases g r c Hr Hc Hrg Hcg)
    as [[_ E]|[(Hnum & _)|[[Hnum _] _]]].
Qed.

Lemma cell_check_clash (g : grid) r c :
  r < 9 → c < 9 → r < length g → c < length (rowG g r) →
  number_0_9 (cellG g r c) → strict_eq (cellG g r c) zero = false →
  clash g r c → cell_check g r c = Some (Error msg_conflict).
Proof.
  intros Hr Hc Hrg Hcg Hnum Hnz Hcl.
  destruct (cell_check_cases g r c Hr Hc Hrg Hcg)
    as [[Hn _]|[(_ & _ & _ & E)|[[_ Hok] _]]]; [done..|].
  destruct Hok; [congruence|done].
Qed.

(** ** The claims on the validation loop *)

(** C3, as amended: on nine rows of nine entries, if a cell is not a
    finite number between 0 and 9, and every cell before it in row-major
    order is such a number and is zero or differs from every other cell
    of its row, column and box, [solveSudoku] returns "Values must be
    numbers 0-9." *)
Theorem solveSudoku_range_error fuel h rows (g : grid) r c :
  board_at h rows g → length g = 9 →
  (∀ r', r' < 9 → length (rowG g r') = 9) →
  r < 9 → c < 9 → ¬ number_0_9 (cellG g r c) →
  (∀ r' c', r' < 9 → c' < 9 → 9 * r' + c' < 9 * r + c → cell_ok g r' c') →
  ∃ h', solveSudoku fuel rows h = Ok (Error msg_range) h'.
Proof.
  intros Hat Hg Hrows Hr Hc Hbad Hbefore.
  apply (solveSudoku_invalid fuel h rows g _ Hat Hg).
  apply (validateG_row g r); [done..| |].
  - intros r' Hr'. split; [apply Hrows; lia|].
    intros c' Hc'. apply Hbefore; lia.
  - apply (row_check_cell g r c); [by auto..| |].
    + intros c' Hc'. apply Hbefore; lia.
    + apply cell_check_range; [done|done|lia| |done]. rewrite Hrows; lia.
Qed.

(** C4, as amended: on an array whose rows are all arrays ([board_at]),
    the nine-row check comes first; then the rows are checked one after
    the other, the length of a row before its cells, and at each cell of
    the row the range and then the conflict with the rest of the board;
    the first check that fails decides the error, whatever the arrays
    that are the later rows hold.  A row that is not an array is outside
    this statement: the copy of line 142 comes before every check of the
    loop. *)
Theorem solveSudoku_check_order fuel h rows (g : grid) :
  board_at h rows g →
  (length g ≠ 9 → solveSudoku fuel rows h = Ok (Error msg_rows) h) ∧
  (length g = 9 →
   ∀ r, r < 9 → (∀ r', r' < r → row_ok g r') →
     (length (rowG g r) ≠ 9 →
      ∃ h', solveSudoku fuel rows h = Ok (Error (msg_row r)) h') ∧
     (length (rowG g r) = 9 →
      ∀ c, c < 9 → (∀ c', c' < c → cell_ok g r c') →
        (¬ number_0_9 (cellG g r c) →
         ∃ h', solveSudoku fuel rows h = Ok (Error msg_range) h') ∧
        (number_0_9 (cellG g r c) →
         strict_eq (cellG g r c) zero = false → clash g r c →
         ∃ h', solveSudoku fuel rows h = Ok (Error msg_conflict) h'))).
Proof.
  intros Hat. split; [by apply solveSudoku_rows|].
  intros Hg r Hr Hrows. split.
  - intros Hlen. apply (solveSudoku_invalid fuel h rows g _ Hat Hg).
    apply (validateG_row g r); [done..|]. by apply row_check_length.
  - intros Hlen c Hc Hcells. split.
    + intros Hbad. apply (solveSudoku_invalid fuel h rows g _ Hat Hg).
      apply (validateG_row g r); [done..|].
      apply (row_check_cell g r c); [done..|].
      apply cell_check_range; (done || lia).
    + intros Hnum Hnz Hcl. apply (solveSudoku_invalid fuel h rows g _ Hat Hg).
      apply (validateG_row g r); [done..|].
      apply (row_check_cell g r c); [done..|].
      apply cell_check_clash; (done || lia).
Qed.

(** ** The caller's store *)

Lemma board_at_prefix h h' b (g : grid) :
  h `prefix_of` h' → board_at h b g → board_at h' b g.
Proof.
  intros Hp (l & refs & -> & Hl & Hrows). exists l, refs.
  split; [done|]. split; [by eapply prefix_lookup_Some|].
  eapply Forall2_impl; [done|]. intros ref row (l' & -> & Hl').
  exists l'. split; [done|]. by eapply prefix_lookup_Some.
Qed.

Lemma read_rows h refs (g : grid) :
  Forall2 (row_at h) refs g →
  (fun ref => match ref with
              | VRef l' => default [] (h !! l')
              | _ => []
              end) <$> refs = g.
Proof.
  induction 1 as [|ref row refs g (l' & -> & Hl') _ IH]; [done|].
  rewrite fmap_cons, Hl'. simpl. by f_equal.
Qed.

Lemma read_board_at h b (g : grid) : board_at h b g → read_board h b = g.
Proof.
  intros (l & refs & -> & Hl & Hrows). unfold read_board. rewrite Hl.
  by apply read_rows.
Qed.

(** ** The solver on the contents of the board *)

Lemma bind_Timeout {A B} (m : M A) (k : A -> M B) h :
  m h = Timeout → (m ≫= k) h = Timeout.
Proof. intros E. unfold mbind, M_bind. by rewrite E. Qed.

Lemma refines_for {R} h0 n : ∀ lo (body : nat -> M (option R)) bodyG,
  (∀ i, lo ≤ i < lo + n → refines h0 (body i) (bodyG i)) →
  refines h0 (for_ n lo body) (forG n lo bodyG).
Proof.
  induction n as [|n IH]; intros lo body bodyG Hb g Hg; [done|].
  simpl. specialize (Hb lo ltac:(lia) g Hg) as Hlo.
  destruct (bodyG lo g) as [[[x|] g']|].
  - destruct Hlo as [E Hg']. by rewrite (bind_Ok _ _ _ _ _ E).
  - destruct Hlo as [E Hg']. rewrite (bind_Ok _ _ _ _ _ E).
    apply IH; [|done]. intros i Hi. apply Hb. lia.
  - by rewrite (bind_Timeout _ _ _ Hlo).
Qed.

Lemma solveBoard_refines h0 fuel :
  refines h0 (solveBoard fuel (board_of h0 9)) (solveG fuel).
Proof.
  induction fuel as [|fuel IH]; [by intros g Hg|].
  intros g Hg. cbn [solveBoard solveG].
  pose proof (refines_for h0 9 0
    (fun row =>
       for_ 9 0 (fun col =>
         brow ← get (board_of h0 9) row;
         x ← get brow col;
         if strict_eq x zero then
           t ← for_ 9 1 (fun value =>
                  ok ← isValid (board_of h0 9) row col (of_nat value);
                  if (ok : bool) then
                    brow ← get (board_of h0 9) row;
                    set brow col (of_nat value);;
                    s ← solveBoard fuel (board_of h0 9);
                    if (s : bool) then ret (Some true) else
                    brow ← get (board_of h0 9) row;
                    set brow col zero;;
                    ret None
                  else ret None);
           match t with
           | Some b => ret (Some b)
           | None => ret (Some false)
           end
         else ret None))
    (fun row => forG 9 0 (try_cell (solveG fuel) row))) as Hscan.
  lapply Hscan; clear Hscan.
  { intros Hscan. specialize (Hscan g Hg).
    destruct (forG 9 0 _ g) as [[[b|] g']|].
    - destruct Hscan as [E Hg']. by rewrite (bind_Ok _ _ _ _ _ E).
    - destruct Hscan as [E Hg']. by rewrite (bind_Ok _ _ _ _ _ E).
    - by rewrite (bind_Timeout _ _ _ Hscan). }
  intros row Hrow. apply refines_for. intros col Hcol g1 Hg1.
  rewrite (get_cell _ _ _ _ _ _ (board_at_lay_n h0 g1 9 Hg1)) by lia.
  unfold try_cell. destruct (strict_eq (cellG g1 row col) zero); [|done].
  pose proof (refines_for h0 9 1
    (fun value =>
       ok ← isValid (board_of h0 9) row col (of_nat value);
       if (ok : bool) then
         brow ← get (board_of h0 9) row;
         set brow col (of_nat value);;
         s ← solveBoard fuel (board_of h0 9);
         if (s : bool) then ret (Some true) else
         brow ← get (board_of h0 9) row;
         set brow col zero;;
         ret None
       else ret None)
    (try_digit (solveG fuel) row col)) as Hdigits.
  lapply Hdigits; clear Hdigits.
  { intros Hdigits. specialize (Hdigits g1 Hg1).
    destruct (forG 9 1 _ g1) as [[[b|] g']|].
    - destruct Hdigits as [E Hg']. by rewrite (bind_Ok _ _ _ _ _ E).
    - destruct Hdigits as [E Hg']. by rewrite (bind_Ok _ _ _ _ _ E).
    - by rewrite (bind_Timeout _ _ _ Hdigits). }
  intros v Hv g2 Hg2.
  rewrite (bind_Ok _ _ _ _ _ (isValid_run _ _ _ row col _
             (board_at_lay_n h0 g2 9 Hg2) Hg2 ltac:(lia))).
  unfold try_digit. destruct (isValidG g2 row col (of_nat v)); [|done].
  rewrite set_cell by (done || lia).
  specialize (IH (updG g2 row col (of_nat v))
                ltac:(by rewrite length_updG)).
  destruct (solveG fuel _) as [[[] g3]|].
  - destruct IH as [E Hg3]. by rewrite (bind_Ok _ _ _ _ _ E).
  - destruct IH as [E Hg3]. rewrite (bind_Ok _ _ _ _ _ E).
    rewrite set_cell by (done || lia). by rewrite length_updG.
  - by rewrite (bind_Timeout _ _ _ IH).
Qed.

Lemma validateG_error (g : grid) o : validateG g = Some o → ∃ m, o = Error m.
Proof.
  intros E. apply first_some_Some in E as (r & _ & E & _).
  unfold row_check in E. destruct (negb _); [injection E as <-; by eexists|].
  apply first_some_Some in E as (c & _ & E & _). unfold cell_check in E.
  repeat (destruct (_ : bool) in E; try (injection E as <-; by eexists));
    done.
Qed.

(** [solveSudoku] on an array of arrays does what [solveSudokuG] says. *)
Lemma solveSudoku_run fuel h rows (g : grid) :
  board_at h rows g →
  match solveSudokuG fuel g with
  | Some v => ∃ o h', solveSudoku fuel rows h = Ok o h' ∧ verdict h' o = v
  | None => solveSudoku fuel rows h = Timeout
  end.
Proof.
  intros Hat. unfold solveSudokuG.
  destruct (Nat.eqb_spec (length g) 9) as [Hg|Hg]; cbn [negb].
  2:{ exists (Error msg_rows), h. split; [|done]. by apply (solveSudoku_rows fuel _ _ g). }
  destruct (validateG g) as [o|] eqn:V.
  { destruct (solveSudoku_invalid fuel _ _ _ _ Hat Hg V) as [h' E].
    destruct (validateG_error g o V) as [m ->]. by exists (Error m), h'. }
  rewrite (solveSudoku_search fuel _ _ _ Hat Hg V).
  pose proof (solveBoard_refines h fuel g Hg) as Href.
  destruct (solveG fuel g) as [[[] g']|].
  - destruct Href as [E Hg']. rewrite (bind_Ok _ _ _ _ _ E).
    eexists _, _. split; [done|]. unfold verdict.
    by rewrite (read_board_at _ _ _ (board_at_lay_n h g' 9 Hg')).
  - destruct Href as [E Hg']. rewrite (bind_Ok _ _ _ _ _ E).
    by eexists _, _.
  - by rewrite (bind_Timeout _ _ _ Href).
Qed.

Example solveG_puzzle9 : solveG 82 (inj puzzle9) = Some (true, inj solved9).
Proof. vm_compute. reflexivity. Qed.

(** ** The search returns *)

Lemma forG_inv {R} (I : nat -> grid -> Prop) (Q : R -> grid -> Prop) n :
  ∀ lo (body : nat -> grid -> option (option R * grid)) (g : grid),
  I lo g →
  (∀ i g, lo ≤ i < lo + n → I i g →
     ∃ r g', body i g = Some (r, g') ∧
             match r with None => I (S i) g' | Some x => Q x g' end) →
  ∃ r g', forG n lo body g = Some (r, g') ∧
          match r with None => I (lo + n) g' | Some x => Q x g' end.
Proof.
  induction n as [|n IH]; intros lo body g Hg Hb.
  - exists None, g. split; [done|]. by rewrite Nat.add_0_r.
  - destruct (Hb lo g ltac:(lia) Hg) as ([x|] & g' & E & Hr); simpl; rewrite E.
    + by exists (Some x), g'.
    + replace (lo + S n) with (S lo + n) by lia.
      apply IH; [done|]. intros i g1 Hi. apply Hb. lia.
Qed.

Lemma alike_refl g : alike g g.
Proof. by split. Qed.

Lemma cell_exists (g : grid) r c :
  strict_eq (cellG g r c) zero = true → c < length (rowG g r).
Proof.
  intros E. destruct (rowG g r !! c) as [x|] eqn:Hx.
  - by eapply lookup_lt_Some.
  - unfold cellG in E. by rewrite Hx in E.
Qed.

Lemma rowG_updG (g : grid) r c v r' :
  r < length g → c < length (rowG g r) →
  length (rowG (updG g r c v) r') = length (rowG g r').
Proof.
  intros Hr Hc. unfold updG, rowG at 1.
  destruct (decide (r' = r)) as [->|Hne].
  - rewrite list_lookup_insert_eq by done. simpl. unfold array_set.
    destruct (Nat.ltb_spec c (length (rowG g r))); [|lia].
    by rewrite length_insert.
  - by rewrite list_lookup_insert_ne.
Qed.

(** Placing a digit and taking it back leaves an alike board. *)
Lemma alike_reset (g g3 : grid) r c v :
  r < length g → strict_eq (cellG g r c) zero = true →
  alike (updG g r c v) g3 → alike g (updG g3 r c zero).
Proof.
  intros Hr Hz (Hlen & Hrows & Hcells).
  pose proof (cell_exists g r c Hz) as Hc.
  rewrite length_updG in Hlen.
  assert (c < length (rowG g3 r)) as Hc3.
  { rewrite Hrows. by rewrite rowG_updG. }
  split; [by rewrite length_updG|]. split.
  - intros r'. rewrite rowG_updG by lia. rewrite Hrows. by apply rowG_updG.
  - intros r' c'. rewrite cellG_updG by lia. case_decide as Hd.
    + destruct Hd as [-> ->]. by rewrite Hz.
    + rewrite Hcells. rewrite cellG_updG by done. by rewrite decide_False.
Qed.

Lemma filledG_updG (g : grid) r c v :
  r < 9 → c < 9 → r < length g → c < length (rowG g r) →
  strict_eq v zero = false →
  filledG g (9 * r + c) → filledG (updG g r c v) (9 * r + c + 1).
Proof.
  intros Hr Hc Hrg Hcg Hv Hpre p Hp. rewrite cellG_updG by done.
  case_decide; [done|]. apply Hpre.
  destruct (decide (p = 9 * r + c)) as [->|]; [|lia].
  rewrite pos_div, pos_mod in * by done. tauto.
Qed.

(** With a unit of fuel for every cell that is left and one more, the
    search returns; when it returns [false] the board is as it was, up to
    the writing of its zeros. *)
Lemma solveG_returns fuel : ∀ k (g : grid),
  length g = 9 → filledG g k → k ≤ 81 → 81 < fuel + k →
  ∃ b g', solveG fuel g = Some (b, g') ∧ (b = false → alike g g').
Proof.
  induction fuel as [|fuel IH]; intros k g Hg Hpre Hk Hfuel; [lia|].
  cbn [solveG].
  destruct (forG_inv
    (fun row g' => g' = g ∧ filledG g (9 * row))
    (fun (b : bool) g' => b = false → alike g g') 9 0
    (fun row => forG 9 0 (try_cell (solveG fuel) row)) g)
    as (r & g' & E & Hr).
  { split; [done|]. intros p Hp. lia. }
  { intros row g1 Hrow [-> Hrows].
    destruct (forG_inv
      (fun col g' => g' = g ∧ filledG g (9 * row + col))
      (fun (b : bool) g' => b = false → alike g g') 9 0
      (try_cell (solveG fuel) row) g) as (r & g' & E & Hr).
    { split; [done|]. by rewrite Nat.add_0_r. }
    { intros col g1 Hcol [-> Hcells]. unfold try_cell.
      destruct (strict_eq (cellG g row col) zero) eqn:Hz; cycle 1.
      { exists None, g. split; [done|]. split; [done|].
        replace (9 * row + S col) with (S (9 * row + col)) by lia.
        intros p Hp. destruct (decide (p = 9 * row + col)) as [->|].
        - by rewrite pos_div, pos_mod by lia.
        - apply Hcells. lia. }
      assert (k ≤ 9 * row + col) as Hkp.
      { apply Nat.nlt_ge. intros Hlt. specialize (Hpre _ Hlt).
        rewrite pos_div, pos_mod in Hpre by lia. congruence. }
      destruct (forG_inv
        (fun (v : nat) g' => alike g g')
        (fun (b : bool) (g' : grid) => b = true) 9 1
        (try_digit (solveG fuel) row col) g) as (t & g' & E & Ht).
      { apply alike_refl. }
      { intros v g1 Hv (Hlen1 & Hrows1 & Hcells1). unfold try_digit.
        destruct (isValidG g1 row col (of_nat v)); [|by exists None, g1].
        assert (strict_eq (cellG g1 row col) zero = true) as Hz1
          by (by rewrite Hcells1).
        pose proof (cell_exists g1 row col Hz1) as Hc1.
        destruct (IH (9 * row + col + 1) (updG g1 row col (of_nat v)))
          as (b & g3 & E3 & Hb).
        { rewrite length_updG. lia. }
        { apply filledG_updG; try lia.
          - unfold of_nat, zero. rewrite strict_eq_of_Z. apply Z.eqb_neq. lia.
          - intros p Hp. rewrite Hcells1. by apply Hcells. }
        { lia. }
        { lia. }
        rewrite E3. destruct b.
        - by exists (Some true), g3.
        - exists None, (updG g3 row col zero). split; [done|].
          destruct (alike_reset g1 g3 row col (of_nat v)) as (L & Rs & Cs);
            [lia|done|auto|].
          split; [lia|]. split.
          + intros r'. by rewrite Rs.
          + intros r' c'. by rewrite Cs. }
      rewrite E. destruct t as [b|].
      - exists (Some b), g'. split; [done|]. congruence.
      - by exists (Some false), g'. }
    rewrite E. destruct r as [b|].
    - by exists (Some b), g'.
    - exists None, g'. destruct Hr as [-> Hr]. split; [done|]. split; [done|].
      by replace (9 * S row) with (9 * row + (0 + 9)) by lia. }
  rewrite E. destruct r as [b|].
  - by exists b, g'.
  - exists true, g'. by split.
Qed.

(** [solveSudoku] returns on every array of arrays. *)
Lemma solveSudoku_returns fuel h rows (g : grid) :
  board_at h rows g → 82 ≤ fuel →
  ∃ o h', solveSudoku fuel rows h = Ok o h'.
Proof.
  intros Hat Hfuel. pose proof (solveSudoku_run fuel h rows g Hat) as Hrun.
  unfold solveSudokuG in Hrun.
  destruct (negb (length g =? 9)) eqn:Hg.
  { destruct Hrun as (o & h' & E & _). by exists o, h'. }
  destruct (validateG g).
  { destruct Hrun as (o' & h' & E & _). by exists o', h'. }
  apply negb_false_iff, Nat.eqb_eq in Hg.
  destruct (solveG_returns fuel 0 g Hg) as (b & g' & E & _);
    [intros p Hp; lia|lia..|].
  rewrite E in Hrun.
  destruct b; destruct Hrun as (o' & h' & E' & _); by exists o', h'.
Qed.

(** C9: whatever the input and the outcome, every array of the caller's
    store is after the call what it was before: the writes go to the
    copy.  So a second call on the same rows gives the same verdict: the
    same message or the same solution. *)
Theorem solveSudoku_input_untouched fuel rows h :
  (∀ h', (∃ o, solveSudoku fuel rows h = Ok o h') ∨
         solveSudoku fuel rows h = Throw h' → h `prefix_of` h') ∧
  (∀ (g : grid) o1 h1,
     board_at h rows g → solveSudoku fuel rows h = Ok o1 h1 →
     ∃ o2 h2, solveSudoku fuel rows h1 = Ok o2 h2 ∧
              verdict h2 o2 = verdict h1 o1).
Proof.
  pose proof (solveSudoku_prefix fuel rows h) as Hframe. split.
  { intros h' [[o E]|E]; by rewrite E in Hframe. }
  intros g o1 h1 Hat E1. rewrite E1 in Hframe. simpl in Hframe.
  pose proof (board_at_prefix _ _ _ _ Hframe Hat) as Hat1.
  pose proof (solveSudoku_run fuel h rows g Hat) as Hrun.
  pose proof (solveSudoku_run fuel h1 rows g Hat1) as Hrun1.
  destruct (solveSudokuG fuel g) as [v|]; [|congruence].
  destruct Hrun as (o & h' & E & Hv), Hrun1 as (o2 & h2 & E2 & Hv2).
  rewrite E1 in E. injection E as <- <-.
  exists o2, h2. split; [done|]. congruence.
Qed.

(** C5 fails on an array of nine [null]s: [row.slice()] throws before the
    row is checked. *)
Theorem solveSudoku_throws_on_null_rows fuel :
  solveSudoku fuel (VRef 0) [replicate 9 VNull] = Throw [replicate 9 VNull].
Proof. reflexivity. Qed.
(** ** Deciding the properties of a grid *)

#[global] Instance forall_lt_dec (P : nat -> Prop) `{!∀ i, Decision (P i)} n :
  Decision (∀ i, i < n → P i).
Proof.
  induction n as [|n IH].
  - left. intros i Hi. lia.
  - destruct IH as [IH|IH].
    + destruct (decide (P n)) as [Hn|Hn].
      * left. intros i Hi. destruct (decide (i = n)) as [->|]; [done|].
        apply IH. lia.
      * right. intros Hall. apply Hn, Hall. lia.
    + right. intros Hall. apply IH. intros i Hi. apply Hall. lia.
Defined.

#[global] Instance exists_lt_dec (P : nat -> Prop) `{!∀ i, Decision (P i)} n :
  Decision (∃ i, i < n ∧ P i).
Proof.
  induction n as [|n IH].
  - right. intros (i & Hi & _). lia.
  - destruct IH as [IH|IH].
    + left. destruct IH as (i & Hi & Hp). exists i. split; [lia|done].
    + destruct (decide (P n)) as [Hn|Hn].
      * left. exists n. split; [lia|done].
      * right. intros (i & Hi & Hp). destruct (decide (i = n)) as [->|]; [done|].
        apply IH. exists i. split; [lia|done].
Defined.

#[global] Instance all_cells_dec (P : nat -> nat -> Prop)
    `{!∀ r c, Decision (P r c)} : Decision (all_cells P).
Proof.
  destruct (decide (∀ r, r < 9 → ∀ c, c < 9 → P r c)) as [Hall|Hn].
  - left. intros r c Hr Hc. by apply Hall.
  - right. intros Hall. apply Hn. intros r Hr c Hc. by apply Hall.
Defined.

#[global] Instance some_cell_dec (P : nat -> nat -> Prop)
    `{!∀ r c, Decision (P r c)} : Decision (some_cell P).
Proof.
  destruct (decide (∃ r, r < 9 ∧ ∃ c, c < 9 ∧ P r c)) as [Hex|Hn].
  - left. destruct Hex as (r & Hr & c & Hc & Hp). by exists r, c.
  - right. intros (r & c & Hr & Hc & Hp). apply Hn. exists r. split; [done|].
    by exists c.
Defined.

#[global] Instance same_unit_dec r c r' c' : Decision (same_unit r c r' c').
Proof. unfold same_unit. apply _. Defined.

#[global] Instance wf9_dec zg : Decision (wf9 zg).
Proof. unfold wf9. apply _. Defined.

#[global] Instance digits_dec zg : Decision (digits zg).
Proof. unfold digits. apply _. Defined.

#[global] Instance full_dec zg : Decision (full zg).
Proof. unfold full. apply _. Defined.

#[global] Instance cell_conflict_dec zg r c : Decision (cell_conflict zg r c).
Proof. unfold cell_conflict. apply _. Defined.

#[global] Instance conflict_dec zg : Decision (conflict zg).
Proof. unfold conflict. apply _. Defined.

#[global] Instance extends_dec zg s : Decision (extends zg s).
Proof. unfold extends. apply _. Defined.

#[global] Instance completion_dec zg s : Decision (completion zg s).
Proof. unfold completion. apply _. Defined.

#[global] Instance clash_dec g r c : Decision (clash g r c).
Proof. unfold clash. apply _. Defined.

Ltac by_computation := apply (bool_decide_unpack _); vm_compute; exact I.

Lemma input_at (g : grid) :
  length g = 9 → board_at (input_store g) input_rows g.
Proof. intros Hg. by apply board_at_lay_n. Qed.

(** ** The claims at example inputs *)

Lemma solveSudoku_solution_valid_witness :
  ∃ b h',
    solveSudoku 82 input_rows (input_store (inj puzzle9)) = Ok (Solution b) h' ∧
    ∃ s, board_at h' b (inj s) ∧
         wf9 s ∧ full s ∧ ¬ conflict s ∧ extends puzzle9 s.
Proof.
  eexists _, _. split; [vm_compute; reflexivity|].
  apply (solveSudoku_solution_valid 82 (input_store (inj puzzle9)) input_rows puzzle9).
  - apply input_at. reflexivity.
  - by_computation.
  - by_computation.
  - by_computation.
  - vm_compute. reflexivity.
Defined.

Lemma solveSudoku_unsolvable_iff_witness :
  ∃ o h',
    solveSudoku 82 input_rows (input_store (inj stuck9)) = Ok o h' ∧
    (o = Error msg_unsolvable ↔ ¬ ∃ s, completion stuck9 s).
Proof.
  apply (solveSudoku_unsolvable_iff 82 (input_store (inj stuck9)) input_rows stuck9).
  - apply input_at. reflexivity.
  - by_computation.
  - by_computation.
  - by_computation.
  - lia.
Defined.

Lemma solveSudoku_conflict_iff_witness :
  conflict twin9 ∧
  ∃ h', solveSudoku 82 input_rows (input_store (inj twin9))
        = Ok (Error msg_conflict) h'.
Proof.
  split; [by_computation|].
  apply (proj1 (solveSudoku_conflict_iff 82 (input_store (inj twin9))
                  input_rows twin9 (input_at (inj twin9) eq_refl)
                  ltac:(by_computation) ltac:(by_computation))).
  by_computation.
Defined.

Lemma solveSudoku_least_completion_witness :
  ∃ b h' s,
    solveSudoku 82 input_rows (input_store (inj puzzle9)) = Ok (Solution b) h' ∧
    board_at h' b (inj s) ∧ completion puzzle9 s ∧
    ∀ s', completion puzzle9 s' → lex_le (row_major s) (row_major s').
Proof.
  apply (solveSudoku_least_completion 82 (input_store (inj puzzle9)) input_rows puzzle9).
  - apply input_at. reflexivity.
  - by_computation.
  - by_computation.
  - by_computation.
  - exists solved9. by_computation.
  - lia.
Defined.

Lemma isValid_correct_witness :
  ∃ b, isValid input_rows 0 0 (of_Z 5) (input_store (inj puzzle9))
       = Ok b (input_store (inj puzzle9)) ∧
       (b = true ↔
        ∀ r' c', r' < 9 → c' < 9 → same_unit 0 0 r' c' → zcell puzzle9 r' c' ≠ 5%Z).
Proof.
  apply (isValid_correct (input_store (inj puzzle9)) input_rows puzzle9 0 0 5).
  - apply input_at. reflexivity.
  - by_computation.
  - lia.
  - lia.
  - lia.
  - reflexivity.
Defined.

Lemma solveSudoku_full_identity_witness :
  ∃ b h',
    solveSudoku 1 input_rows (input_store (inj solved9)) = Ok (Solution b) h' ∧
    board_at h' b (inj solved9).
Proof.
  apply (solveSudoku_full_identity 1 (input_store (inj solved9)) input_rows solved9).
  - apply input_at. reflexivity.
  - by_computation.
  - by_computation.
  - by_computation.
  - lia.
Defined.

Lemma solveSudoku_input_untouched_witness :
  ∃ o1 h1,
    solveSudoku 82 input_rows (input_store (inj puzzle9)) = Ok o1 h1 ∧
    input_store (inj puzzle9) `prefix_of` h1 ∧
    ∃ o2 h2, solveSudoku 82 input_rows h1 = Ok o2 h2 ∧
             verdict h2 o2 = verdict h1 o1.
Proof.
  eexists _, _. split; [vm_compute; reflexivity|].
  destruct (solveSudoku_input_untouched 82 input_rows
              (input_store (inj puzzle9))) as [Hframe Hagain].
  split.
  - apply Hframe. left. eexists. vm_compute. reflexivity.
  - apply (Hagain (inj puzzle9)).
    + apply input_at. reflexivity.
    + vm_compute. reflexivity.
Defined.

Lemma solveSudoku_range_error_witness :
  ∃ h', solveSudoku 82 input_rows (input_store (inj ten9))
        = Ok (Error msg_range) h'.
Proof.
  apply (solveSudoku_range_error 82 (input_store (inj ten9)) input_rows
           (inj ten9) 0 1).
  - apply input_at. reflexivity.
  - reflexivity.
  - by_computation.
  - lia.
  - lia.
  - intros H. apply in_range_iff in H. vm_compute in H. discriminate H.
  - intros r' c' Hr' Hc' Hlt.
    assert (r' = 0 ∧ c' = 0) as [-> ->] by lia.
    split; [|by left]. apply in_range_iff. reflexivity.
Defined.

Lemma solveSudoku_check_order_witness :
  ∃ h', solveSudoku 82 input_rows (input_store (inj ragged9))
        = Ok (Error msg_range) h'.
Proof.
  destruct (solveSudoku_check_order 82 (input_store (inj ragged9)) input_rows
              (inj ragged9)) as [_ Horder].
  - apply input_at. reflexivity.
  - destruct (Horder eq_refl 0) as [_ Hcells]; [lia|intros r' Hr'; lia|].
    destruct (Hcells eq_refl 0) as [Hrange _]; [lia|intros c' Hc'; lia|].
    apply Hrange.
    intros H. apply in_range_iff in H. vm_compute in H. discriminate H.
Defined.

(** ** Where the specification and the code part *)

Lemma not_integer_5_2 : ¬ integer_0_9 (VNum (Fin (5 # 2))).
Proof.
  intros (z & _ & E). simpl in E. apply Qeq_bool_iff in E.
  unfold Qeq in E. simpl in E. lia.
Qed.

Lemma not_integer_10 : ¬ integer_0_9 (of_Z 10).
Proof.
  intros (z & Hz & E). rewrite strict_eq_of_Z in E. apply Z.eqb_eq in E. lia.
Qed.

Lemma not_number_10 : ¬ number_0_9 (of_Z 10).
Proof. intros H. apply in_range_iff in H. vm_compute in H. discriminate H. Qed.

(** C3 as written fails: 2.5 passes the range check, and a conflict at an
    earlier cell is reported before a 10 is seen. *)
Lemma solveSudoku_range_counterexample :
  (length frac9 = 9 ∧ (∀ r, r < 9 → length (rowG frac9 r) = 9) ∧
   ¬ integer_0_9 (cellG frac9 0 0) ∧
   ∃ b h', solveSudoku 82 input_rows (input_store frac9) = Ok (Solution b) h') ∧
  (length (inj clash9) = 9 ∧ (∀ r, r < 9 → length (rowG (inj clash9) r) = 9) ∧
   ¬ integer_0_9 (cellG (inj clash9) 0 2) ∧
   ∃ h', solveSudoku 82 input_rows (input_store (inj clash9))
         = Ok (Error msg_conflict) h').
Proof.
  split.
  - split; [reflexivity|]. split; [by_computation|].
    split; [apply not_integer_5_2|].
    eexists _, _. vm_compute. reflexivity.
  - split; [reflexivity|]. split; [by_computation|].
    split; [apply not_integer_10|].
    eexists. vm_compute. reflexivity.
Qed.

(** C4 as written fails: a 10 in row 1 is reported although the last row
    has eight entries, and a conflict in row 1 is reported although a
    later cell holds a 10. *)
Lemma solveSudoku_order_counterexample :
  (¬ number_0_9 (cellG (inj ragged9) 0 0) ∧
   length (rowG (inj ragged9) 8) = 8 ∧
   (∃ h', solveSudoku 82 input_rows (input_store (inj ragged9))
          = Ok (Error msg_range) h') ∧
   msg_range ≠ msg_rows ∧ ∀ r, msg_range ≠ msg_row r) ∧
  (¬ number_0_9 (cellG (inj clash9) 0 2) ∧
   (∃ h', solveSudoku 82 input_rows (input_store (inj clash9))
          = Ok (Error msg_conflict) h') ∧
   msg_conflict ≠ msg_range).
Proof.
  split.
  - split; [apply not_number_10|]. split; [reflexivity|].
    split; [eexists; vm_compute; reflexivity|]. split; [done|].
    intros r E. unfold msg_range, msg_row in E. simpl in E. discriminate E.
  - split; [apply not_number_10|].
    split; [eexists; vm_compute; reflexivity|]. done.
Qed.

(** A row that is a string reaches the check of line 145. *)
Example solveSudoku_string_row fuel :
  solveSudoku fuel (VRef 0) [replicate 9 (VStr "123456789")]
  = Ok (Error (msg_row 0)) [replicate 9 (VStr "123456789");
                            replicate 9 (VStr "123456789")].
Proof. reflexivity. Qed.

(** ** The examples of the specification *)

Example eight_rows fuel :
  ∃ h', solveSudoku fuel (board_of [] 8) (lay [] (inj (replicate 8 empty_row)))
        = Ok (Error "Puzzle must have 9 rows.") h'.
Proof. eexists. reflexivity. Qed.

Example third_row_short fuel :
  ∃ h', solveSudoku fuel input_rows
          (input_store (inj (replicate 2 empty_row ++ [replicate 8 0%Z]
                             ++ replicate 6 empty_row)))
        = Ok (Error "Row 3 must have 9 values.") h'.
Proof. eexists. vm_compute. reflexivity. Qed.

Example minus_one fuel :
  ∃ h', solveSudoku fuel input_rows
          (input_store (inj ([-1; 0; 0; 0; 0; 0; 0; 0; 0]%Z
                             :: replicate 8 empty_row)))
        = Ok (Error "Values must be numbers 0-9.") h'.
Proof. eexists. vm_compute. reflexivity. Qed.

Example two_fives fuel :
  ∃ h', solveSudoku fuel input_rows
          (input_store (inj ([5; 5; 0; 0; 0; 0; 0; 0; 0]%Z
                             :: replicate 8 empty_row)))
        = Ok (Error "Puzzle has conflicting values.") h'.
Proof. eexists. vm_compute. reflexivity. Qed.

Example stuck9_unsolvable :
  ∃ h', solveSudoku 82 input_rows (input_store (inj stuck9))
        = Ok (Error "No solution found.") h'.
Proof. eexists. vm_compute. reflexivity. Qed.

Example puzzle9_solved :
  ∃ b h', solveSudoku 82 input_rows (input_store (inj puzzle9))
          = Ok (Solution b) h' ∧
          read_board h' b = inj solved9 ∧
          input_store (inj puzzle9) `prefix_of` h'.
Proof.
  eexists _, _. split; [vm_compute; reflexivity|].
  split; [reflexivity|]. by eexists.
Qed.

(** * The rest of the viewer *)

(** ** [parsePuzzle]: rows and errors *)

Section ParseShape.
Variable to_number : Z -> number.

Lemma each_line_spec lines : ∀ index (rows0 : grid) (errors0 : list string),
  ∃ (new : grid) (more : list string),
    each_line to_number index lines rows0 errors0
    = (rows0 ++ new, errors0 ++ more) ∧
    (more = [] ↔ Forall (fun row => length row = 9) new) ∧
    Forall (fun row => row ≠ [] ∧ ∃ line, row = parse_numbers to_number line)
           new ∧
    length new ≤ length lines.
Proof.
  induction lines as [|line rest IH]; intros index rows0 errors0.
  { exists [], []. rewrite !app_nil_r. simpl. repeat split; auto; lia. }
  cbn [each_line].
  destruct (Nat.eqb_spec (length (parse_numbers to_number line)) 0) as [H0|H0].
  { destruct (IH (S index) rows0 errors0) as (new & more & -> & Hmore & Hne & Hlen).
    exists new, more. simpl. repeat split; try apply Hmore; auto. }
  destruct (Nat.eqb_spec (length (parse_numbers to_number line)) 9) as [H9|H9];
    cbn [negb].
  - destruct (IH (S index) (rows0 ++ [parse_numbers to_number line]) errors0)
      as (new & more & -> & Hmore & Hne & Hlen).
    exists (parse_numbers to_number line :: new), more.
    rewrite <- app_assoc. split; [done|]. split; [|split].
    + rewrite Hmore. split; [by constructor|]. by intros [_ ?]%Forall_cons.
    + constructor; [|done]. split; [|by eexists].
      by intros E; rewrite E in H0.
    + simpl. lia.
  - destruct (IH (S index) (rows0 ++ [parse_numbers to_number line])
                (errors0 ++ [msg_values (index + 1)
                               (length (parse_numbers to_number line))]))
      as (new & more & -> & Hmore & Hne & Hlen).
    exists (parse_numbers to_number line :: new),
           (msg_values (index + 1) (length (parse_numbers to_number line)) :: more).
    rewrite <- !app_assoc. split; [done|]. split; [|split].
    + split; [done|]. by intros [? _]%Forall_cons.
    + constructor; [|done]. split; [|by eexists].
      by intros E; rewrite E in H0.
    + simpl. lia.
Qed.

Lemma digits_value_nonneg run : ∀ acc, (0 ≤ acc → 0 ≤ digits_value acc run)%Z.
Proof.
  induction run as [|c run IH]; intros acc Hacc; simpl; [done|].
  apply IH. lia.
Qed.

(** Every value that [parsePuzzle] reads is the Number of an integer that
    is not negative, and no row is empty. *)
Lemma parsePuzzle_values text :
  Forall (fun row =>
            row ≠ [] ∧
            Forall (fun v => ∃ z, (0 ≤ z)%Z ∧ v = VNum (to_number z)) row)
         (rows (parsePuzzle to_number text)).
Proof.
  unfold parsePuzzle.
  destruct (each_line_spec
              (List.filter (fun line => 0 <? String.length line)
                           (trim <$> split_lines text)) 0 [] [])
    as (new & more & -> & _ & Hnew & _).
  simpl. destruct (Nat.eqb_spec (length new) 9) as [H9|H9]; simpl.
  all: eapply Forall_impl; [exact Hnew|].
  all: intros row [Hne [line ->]]; split; [done|].
  all: unfold parse_numbers; apply Forall_fmap, Forall_forall; intros run _.
  all: simpl; eexists; split; [|done]; by apply digits_value_nonneg.
Qed.

Lemma parsePuzzle_no_errors text :
  errors (parsePuzzle to_number text) = [] →
  length (rows (parsePuzzle to_number text)) = 9 ∧
  Forall (fun row => length row = 9) (rows (parsePuzzle to_number text)).
Proof.
  unfold parsePuzzle.
  destruct (each_line_spec
              (List.filter (fun line => 0 <? String.length line)
                           (trim <$> split_lines text)) 0 [] [])
    as (new & more & -> & Hmore & _ & _).
  simpl. destruct (Nat.eqb_spec (length new) 9) as [H9|H9]; simpl.
  - rewrite Hmore. tauto.
  - intros E. by apply app_eq_nil in E as [_ ?].
Qed.

(** X1: [parsePuzzle] reports no error exactly when it read nine rows of nine
    values: the Solve button is enabled for these puzzles and no others. *)
Theorem parsePuzzle_errors_shape text :
  errors (parsePuzzle to_number text) = [] ↔
  length (rows (parsePuzzle to_number text)) = 9 ∧
  Forall (fun row => length row = 9) (rows (parsePuzzle to_number text)).
Proof.
  unfold parsePuzzle.
  destruct (each_line_spec
              (List.filter (fun line => 0 <? String.length line)
                           (trim <$> split_lines text)) 0 [] [])
    as (new & more & -> & Hmore & _ & _).
  simpl. destruct (Nat.eqb_spec (length new) 9) as [H9|H9]; simpl.
  - rewrite Hmore. tauto.
  - split; [|tauto]. intros E. by apply app_eq_nil in E as [_ ?].
Qed.
End ParseShape.

(** ** From a puzzle file to the solver *)

Lemma validateG_9x9 (g : grid) o :
  length g = 9 → Forall (fun row => length row = 9) g →
  validateG g = Some o → o = Error msg_range ∨ o = Error msg_conflict.
Proof.
  intros Hg Hrows E. apply first_some_Some in E as (r & Hr & E & _).
  assert (length (rowG g r) = 9) as Hlen.
  { destruct (lookup_lt_is_Some_2 g r ltac:(lia)) as [row Hrow].
    rewrite (rowG_lookup _ _ _ Hrow).
    by eapply (Forall_lookup_1 _ _ _ _ Hrows). }
  rewrite row_check_cells in E by done.
  apply first_some_Some in E as (c & Hc & E & _).
  destruct (cell_check_cases g r c) as [[_ E']|[(_ & _ & _ & E')|[_ E']]];
    try lia; rewrite E' in E; simplify_eq; auto.
Qed.

(** X2: when [parsePuzzle] reports no error, [solveSudoku] returns on its
    rows, and not with a message about the number of rows or of values:
    the Solve button, which is disabled when there are errors, never
    shows one. *)
Theorem parsed_rows_solve to_number text fuel h ref :
  errors (parsePuzzle to_number text) = [] →
  board_at h ref (rows (parsePuzzle to_number text)) →
  82 ≤ fuel →
  ∃ o h', solveSudoku fuel ref h = Ok o h' ∧
          ∀ m, o = Error m →
               m = msg_range ∨ m = msg_conflict ∨ m = msg_unsolvable.
Proof.
  intros [Hlen Hrows]%parsePuzzle_no_errors Hat Hfuel.
  pose proof (solveSudoku_run fuel h ref _ Hat) as Hrun.
  unfold solveSudokuG in Hrun. rewrite Hlen in Hrun. cbn [Nat.eqb negb] in Hrun.
  destruct (validateG _) as [o|] eqn:V.
  { destruct Hrun as (o' & h' & E & Hv). exists o', h'. split; [done|].
    intros m ->. simpl in Hv.
    destruct (validateG_9x9 _ o Hlen Hrows V) as [-> | ->]; simplify_eq/=; auto. }
  destruct (solveG_returns fuel 0 _ Hlen) as (b & g' & E & _);
    [intros p Hp; lia|lia..|].
  rewrite E in Hrun. destruct b.
  - destruct Hrun as (o' & h' & E' & Hv). exists o', h'. split; [done|].
    by intros m ->.
  - destruct Hrun as (o' & h' & E' & Hv). exists o', h'. split; [done|].
    intros m ->. simpl in Hv. simplify_eq. auto.
Qed.

Section ParseValues.
Variable to_number : Z -> number.
Hypothesis to_number_small :
  ∀ z, (0 ≤ z ≤ 2 ^ 53)%Z → to_number z = Fin (inject_Z z).
Hypothesis to_number_big :
  ∀ z, (2 ^ 53 < z)%Z → in_range (VNum (to_number z)) = false.

Lemma to_Z_of_Z z : to_Z (of_Z z) = z.
Proof. simpl. apply Z.div_1_r. Qed.

Lemma parsed_value_digit z :
  (0 ≤ z)%Z → in_range (VNum (to_number z)) = true →
  (0 ≤ z ≤ 9)%Z ∧ VNum (to_number z) = of_Z z.
Proof.
  intros Hz Hin. destruct (Z.le_gt_cases z (2 ^ 53)) as [Hle|Hgt].
  - rewrite to_number_small in * by lia.
    split; [|done]. by apply in_range_of_Z.
  - rewrite to_number_big in Hin by lia. done.
Qed.

(** X3: when [parsePuzzle] reports no error and every value passes the range
    check of [solveSudoku], the rows are a 9×9 grid of the integers 0 to
    9: no fraction, no sign, no other value reaches the search. *)
Theorem parsed_rows_grid text :
  errors (parsePuzzle to_number text) = [] →
  Forall (Forall (fun v => in_range v = true))
         (rows (parsePuzzle to_number text)) →
  ∃ zg, rows (parsePuzzle to_number text) = inj zg ∧ wf9 zg ∧ digits zg.
Proof.
  intros [Hlen Hrows]%parsePuzzle_no_errors Hin.
  pose proof (parsePuzzle_values to_number text) as Hval.
  set (g := rows (parsePuzzle to_number text)) in *.
  assert (Forall (Forall (fun v => (0 ≤ to_Z v ≤ 9)%Z ∧ of_Z (to_Z v) = v)) g)
    as Hdig.
  { apply Forall_forall. intros row Hrow. apply Forall_forall. intros v Hv.
    rewrite Forall_forall in Hval, Hin.
    destruct (Hval row Hrow) as [_ Hvals]. rewrite Forall_forall in Hvals.
    destruct (Hvals v Hv) as (z & Hz & ->).
    specialize (Hin row Hrow). rewrite Forall_forall in Hin.
    destruct (parsed_value_digit z Hz (Hin _ Hv)) as [Hz9 ->].
    by rewrite to_Z_of_Z. }
  exists (fmap (M:=list) (fmap (M:=list) to_Z) g). split; [|split].
  - unfold inj. rewrite <- list_fmap_compose. symmetry.
    rewrite <- (list_fmap_id g) at 2. apply Forall_fmap_ext_1.
    eapply Forall_impl; [exact Hdig|]. intros row Hrow. simpl.
    rewrite <- list_fmap_compose. rewrite <- (list_fmap_id row) at 2.
    apply Forall_fmap_ext_1. eapply Forall_impl; [exact Hrow|].
    by intros v [_ ?].
  - split; [by rewrite length_fmap|]. apply Forall_fmap.
    eapply Forall_impl; [exact Hrows|]. intros row ?. simpl.
    by rewrite length_fmap.
  - intros r c Hr Hc. unfold zcell. rewrite list_lookup_fmap.
    destruct (g !! r) as [row|] eqn:Hrow; simpl; [|lia].
    rewrite list_lookup_fmap. destruct (row !! c) as [v|] eqn:Hv; simpl; [|lia].
    rewrite Forall_forall in Hdig.
    specialize (Hdig row ltac:(by eapply list_elem_of_lookup_2)).
    rewrite Forall_forall in Hdig.
    by destruct (Hdig v ltac:(by eapply list_elem_of_lookup_2)).
Qed.
End ParseValues.

(** ** More on the solver *)

(** X4: on an array of arrays, whatever the cells hold, [solveSudoku] returns:
    one of the five messages, or as solution the board it copied, an
    array that the caller's store did not hold. *)
Theorem solveSudoku_outcomes fuel h rows (g : grid) :
  board_at h rows g → 82 ≤ fuel →
  ∃ o h', solveSudoku fuel rows h = Ok o h' ∧
    match o with
    | Error m =>
        m = msg_rows ∨ (∃ r, r < 9 ∧ m = msg_row r) ∨ m = msg_range ∨
        m = msg_conflict ∨ m = msg_unsolvable
    | Solution b => b = VRef (length h + 9) ∧ h !! (length h + 9) = None
    end.
Proof.
  intros Hat Hfuel.
  destruct (Nat.eq_dec (length g) 9) as [Hg|Hg]; cycle 1.
  { exists (Error msg_rows), h. split; [by eapply solveSudoku_rows|auto]. }
  destruct (validateG g) as [o|] eqn:V.
  { destruct (solveSudoku_invalid fuel _ _ _ _ Hat Hg V) as [h' E].
    exists o, h'. split; [done|].
    apply first_some_Some in V as (r & Hr & V & _). unfold row_check in V.
    destruct (length (rowG g r) =? 9); cbn [negb] in V.
    - apply first_some_Some in V as (c & Hc & V & _). unfold cell_check in V.
      destruct (in_range _); cbn [negb] in V; [|simplify_eq; auto].
      destruct (strict_eq _ zero); cbn [negb] in V; [done|].
      destruct (isValidG _ _ _ _); cbn [negb] in V; simplify_eq. auto.
    - simplify_eq. right. left. exists r. split; [lia|done]. }
  pose proof (solveSudoku_run fuel h rows g Hat) as Hrun.
  rewrite (solveSudoku_search fuel _ _ _ Hat Hg V) in Hrun |- *.
  unfold solveSudokuG in Hrun. rewrite V in Hrun.
  destruct (Nat.eqb_spec (length g) 9) as [_|]; [|done]. cbn [negb] in Hrun.
  destruct (solveG_returns fuel 0 g Hg) as (b & g' & E & _);
    [intros p Hp; lia|lia..|].
  rewrite E in Hrun. destruct b; destruct Hrun as (o & h' & E' & Hv).
  - exists o, h'. split; [done|].
    unfold mbind, M_bind in E'.
    destruct (solveBoard fuel _ _) as [[] ?| |]; simplify_eq/=.
    all: inversion E'; subst; simpl in *; try done.
    split; [done|]. apply lookup_ge_None_2. lia.
  - exists o, h'. split; [done|]. destruct o; simplify_eq/=. tauto.
Qed.

(** X5: a value that is not an array is turned down with "Puzzle must have 9
    rows.", and the store is left as it was. *)
Theorem solveSudoku_not_array fuel rows h :
  (∀ l, rows = VRef l → h !! l = None) →
  solveSudoku fuel rows h = Ok (Error msg_rows) h.
Proof.
  intros Hrows. unfold solveSudoku, not_nine.
  destruct rows as [| | | | |l]; try reflexivity.
  unfold mbind, M_bind, isArray. rewrite (Hrows l eq_refl).
  by rewrite bool_decide_eq_false_2 by (by intros [? ?]).
Qed.

(** X6: [isValid] turns down the value that the cell itself holds: this is
    why the validation clears a cell before it asks. *)
Theorem isValid_own_value h board (g : grid) row col v :
  board_at h board g → length g = 9 → row < 9 → col < 9 →
  strict_eq (cellG g row col) v = true →
  isValid board row col v h = Ok false h.
Proof.
  intros Hat Hg Hr Hc Hv. rewrite (isValid_run _ _ _ _ _ _ Hat Hg Hr).
  f_equal. destruct (isValidG g row col v) eqn:E; [|done].
  apply isValidG_true in E as [Hline _].
  destruct (Hline col Hc) as [E _]. congruence.
Qed.

(** X7: on a 9×9 board of digits without a conflict, [solveBoard] returns; it
    answers [false] exactly when the board has no completion, and then
    every cell it wrote is back to what it was. *)
Theorem solveBoard_failure_restores fuel h0 zg :
  wf9 zg → digits zg → ¬ conflict zg → 82 ≤ fuel →
  ∃ b h', solveBoard fuel (board_of h0 9) (lay h0 (inj zg)) = Ok b h' ∧
          (b = false ↔ ¬ ∃ s, completion zg s) ∧
          (b = false → h' = lay h0 (inj zg)).
Proof.
  intros Hwf Hdig Hno Hfuel.
  destruct (solveBoard_spec fuel 0 zg h0 Hwf Hdig Hno) with (h := lay h0 (inj zg))
    as (b & h' & E & zg' & -> & Hb); [intros p Hp; lia|lia|lia|done|].
  exists b, (lay h0 (inj zg')). split; [done|]. destruct b.
  - split; [|done]. split; [done|]. intros Hnone. destruct Hnone.
    exists zg'. apply Hb.
  - destruct Hb as [-> Hnone]. split; [|done]. split; [|done].
    intros _ [s Hs]. by apply (Hnone s).
Qed.

(** ** Reading back a puzzle file *)

Lemma digit_cases z :
  (0 ≤ z ≤ 9)%Z →
  z = 0%Z ∨ z = 1%Z ∨ z = 2%Z ∨ z = 3%Z ∨ z = 4%Z ∨
  z = 5%Z ∨ z = 6%Z ∨ z = 7%Z ∨ z = 8%Z ∨ z = 9%Z.
Proof. lia. Qed.

Ltac each_digit H :=
  apply digit_cases in H;
  repeat (destruct H as [H|H]; [subst; reflexivity|]); subst; reflexivity.

Lemma digit_char_digit z : (0 ≤ z ≤ 9)%Z → is_digit (digit_char z) = true.
Proof. intros H. each_digit H. Qed.

Lemma digit_char_space z : (0 ≤ z ≤ 9)%Z → is_space (digit_char z) = false.
Proof. intros H. each_digit H. Qed.

Lemma digit_char_LF z : (0 ≤ z ≤ 9)%Z → Ascii.eqb (digit_char z) LF = false.
Proof. intros H. each_digit H. Qed.

Lemma digit_char_CR z : (0 ≤ z ≤ 9)%Z → Ascii.eqb (digit_char z) CR = false.
Proof. intros H. each_digit H. Qed.

Lemma digit_char_value z :
  (0 ≤ z ≤ 9)%Z → Z.of_nat (nat_of_ascii (digit_char z) - 48) = z.
Proof. intros H. each_digit H. Qed.

Lemma render_row_cons z z' row :
  render_row (z :: z' :: row)
  = String (digit_char z) (String " " (render_row (z' :: row))).
Proof. reflexivity. Qed.

Lemma split_lines_char c text :
  Ascii.eqb c LF = false → Ascii.eqb c CR = false →
  split_lines (String c text) = add_char c (split_lines text).
Proof.
  intros HL HC. cbn [split_lines]. rewrite HL, HC. by destruct text.
Qed.

Lemma split_lines_eol eol text :
  eol = String LF "" ∨ eol = String CR (String LF "") →
  split_lines (eol ++ text) = "" :: split_lines text.
Proof. by intros [-> | ->]. Qed.

Lemma split_lines_row eol text : ∀ row,
  Forall (fun z => (0 ≤ z ≤ 9)%Z) row →
  eol = String LF "" ∨ eol = String CR (String LF "") →
  split_lines (render_row row ++ eol ++ text) = render_row row :: split_lines text.
Proof.
  intros row Hrow Heol.
  induction Hrow as [|z row Hz Hrow IH]; [by apply (split_lines_eol eol text)|].
  destruct row as [|z' row].
  - change (render_row [z] +:+ eol +:+ text)
      with (String (digit_char z) (eol +:+ text)).
    rewrite split_lines_char by auto using digit_char_LF, digit_char_CR.
    by rewrite split_lines_eol.
  - rewrite render_row_cons.
    change (String (digit_char z) (String " " (render_row (z' :: row)))
            +:+ eol +:+ text)
      with (String (digit_char z)
              (String " " (render_row (z' :: row) +:+ eol +:+ text))).
    rewrite split_lines_char by auto using digit_char_LF, digit_char_CR.
    rewrite split_lines_char by done. by rewrite IH.
Qed.

Lemma split_lines_render eol : ∀ zg : zgrid,
  Forall (Forall (fun z => (0 ≤ z ≤ 9)%Z)) zg →
  eol = String LF "" ∨ eol = String CR (String LF "") →
  split_lines (render eol zg) = (render_row <$> zg) ++ [""].
Proof.
  intros zg Hzg Heol. induction Hzg as [|row zg Hrow Hzg IH]; [done|].
  cbn [render]. rewrite split_lines_row by done. by rewrite IH.
Qed.

Lemma render_row_first z row :
  ∃ s, render_row (z :: row) = String (digit_char z) s.
Proof. destruct row; by eexists. Qed.

Lemma trim_end_row : ∀ row,
  Forall (fun z => (0 ≤ z ≤ 9)%Z) row → trim_end (render_row row) = render_row row.
Proof.
  intros row Hrow. induction Hrow as [|z row Hz Hrow IH]; [done|].
  destruct row as [|z' row].
  - cbn. by rewrite digit_char_space.
  - rewrite render_row_cons. cbn [trim_end]. rewrite IH.
    by destruct (render_row_first z' row) as [s ->].
Qed.

Lemma trim_row row :
  Forall (fun z => (0 ≤ z ≤ 9)%Z) row → trim (render_row row) = render_row row.
Proof.
  intros Hrow. unfold trim. destruct Hrow as [|z row Hz Hrow]; [done|].
  destruct (render_row_first z row) as [s E]. rewrite E at 1.
  cbn [trim_start]. rewrite digit_char_space by done. rewrite <- E.
  apply trim_end_row. by constructor.
Qed.

Lemma digit_runs_row : ∀ row,
  Forall (fun z => (0 ≤ z ≤ 9)%Z) row →
  digit_runs (render_row row) = (fun z => String (digit_char z) "") <$> row.
Proof.
  intros row Hrow. induction Hrow as [|z row Hz Hrow IH]; [done|].
  destruct row as [|z' row].
  - cbn. by rewrite digit_char_digit.
  - rewrite render_row_cons. cbn [digit_runs starts_digit].
    rewrite digit_char_digit by done.
    change (is_digit " ") with false. cbv iota. by rewrite IH.
Qed.

Lemma wf9_digits_Forall zg :
  wf9 zg → digits zg →
  Forall (fun row => length row = 9 ∧ Forall (fun z => (0 ≤ z ≤ 9)%Z) row) zg.
Proof.
  intros [Hlen Hrows] Hdig. apply Forall_lookup_2. intros r row Hr.
  pose proof (Forall_lookup_1 _ _ _ _ Hrows Hr) as Hrow. cbv beta in Hrow.
  split; [done|]. apply Forall_lookup_2. intros c z Hc.
  pose proof (lookup_lt_Some _ _ _ Hr) as Lr.
  pose proof (lookup_lt_Some _ _ _ Hc) as Lc.
  rewrite Hlen in Lr. rewrite Hrow in Lc.
  specialize (Hdig r c Lr Lc). cbv beta in Hdig.
  unfold zcell in Hdig. rewrite Hr in Hdig. simpl in Hdig.
  by rewrite Hc in Hdig.
Qed.

Lemma lines_render (zg : zgrid) :
  Forall (fun row => length row = 9 ∧ Forall (fun z => (0 ≤ z ≤ 9)%Z) row) zg →
  List.filter (fun line => 0 <? String.length line)
              (trim <$> (render_row <$> zg) ++ [""])
  = render_row <$> zg.
Proof.
  intros Hzg. induction Hzg as [|row zg [Hlen Hrow] Hzg IH]; [done|].
  rewrite fmap_cons, <- app_comm_cons, fmap_cons. cbn [List.filter].
  rewrite trim_row by done. rewrite IH.
  destruct row as [|z row]; [done|].
  by destruct (render_row_first z row) as [s ->].
Qed.

Section ParseRender.
Variable to_number : Z -> number.
Hypothesis to_number_small :
  ∀ z, (0 ≤ z ≤ 2 ^ 53)%Z → to_number z = Fin (inject_Z z).

Lemma parse_numbers_row row :
  Forall (fun z => (0 ≤ z ≤ 9)%Z) row →
  parse_numbers to_number (render_row row) = of_Z <$> row.
Proof.
  intros Hrow. unfold parse_numbers. rewrite digit_runs_row by done.
  rewrite <- list_fmap_compose. apply Forall_fmap_ext_1.
  eapply Forall_impl; [exact Hrow|]. intros z Hz.
  cbv beta in Hz |- *. unfold compose. cbn [digits_value].
  rewrite Z.mul_0_r, Z.add_0_l, digit_char_value by done.
  rewrite to_number_small; [done|].
  change (2 ^ 53)%Z with 9007199254740992%Z. lia.
Qed.

Lemma each_line_render : ∀ (zg : zgrid) index rows0 errors0,
  Forall (fun row => length row = 9 ∧ Forall (fun z => (0 ≤ z ≤ 9)%Z) row) zg →
  each_line to_number index (render_row <$> zg) rows0 errors0
  = (rows0 ++ inj zg, errors0).
Proof.
  intros zg index rows0 errors0 Hzg. revert index rows0.
  induction Hzg as [|row zg [Hlen Hrow] Hzg IH]; intros index rows0.
  - simpl. by rewrite app_nil_r.
  - rewrite fmap_cons. cbn [each_line]. rewrite parse_numbers_row by done.
    rewrite length_fmap, Hlen. cbn [Nat.eqb negb]. rewrite IH.
    by rewrite <- app_assoc.
Qed.

(** X8: a file of nine lines of nine digits, separated by a space, with line
    feeds or with carriage returns and line feeds, is read back as the
    grid it writes, and without an error. *)
Theorem parsePuzzle_render eol zg :
  wf9 zg → digits zg →
  eol = String LF "" ∨ eol = String CR (String LF "") →
  parsePuzzle to_number (render eol zg) = {| rows := inj zg; errors := [] |}.
Proof.
  intros Hwf Hdig Heol. pose proof (wf9_digits_Forall zg Hwf Hdig) as Hzg.
  unfold parsePuzzle. rewrite split_lines_render; [|
    by eapply Forall_impl; [exact Hzg|]; intros row [_ ?] | done].
  rewrite lines_render by done.
  rewrite each_line_render by done. rewrite app_nil_l, length_inj.
  destruct Hwf as [-> _]. done.
Qed.
End ParseRender.

(** ** Rows that are not arrays *)

Lemma slice_returns v h :
  (∃ y h', slice v h = Ok y h') ∨ (∃ h', slice v h = Throw h').
Proof.
  destruct v as [| | | | |l]; simpl; eauto.
  destruct (h !! l); unfold alloc; eauto.
Qed.

Lemma mapM_slice_throws : ∀ (refs : list value) h,
  Exists no_slice refs → ∃ h', mapM slice refs h = Throw h'.
Proof.
  induction refs as [|v refs IH]; intros h Hex; [by apply Exists_nil in Hex|].
  cbn [mapM]. destruct (slice_returns v h) as [(y & h1 & E)|[h1 E]].
  - apply Exists_cons in Hex as [Hv|Hex].
    { destruct v; simpl in *; done. }
    destruct (IH h1 Hex) as [h' E'].
    exists h'. rewrite (bind_Ok _ _ _ _ _ E).
    by rewrite (bind_Throw _ _ _ _ E').
  - exists h1. by rewrite (bind_Throw _ _ _ _ E).
Qed.

(** X9: on an array of nine rows of which one is [null], [undefined], a number
    or a boolean, [solveSudoku] throws: the copy of line 142 calls
    [row.slice()] on every row before the first check of the loop. *)
Theorem solveSudoku_row_without_slice fuel l (refs : list value) h :
  h !! l = Some refs → length refs = 9 → Exists no_slice refs →
  ∃ h', solveSudoku fuel (VRef l) h = Throw h'.
Proof.
  intros Hl Hlen Hex. unfold solveSudoku.
  assert (not_nine (VRef l) h = Ok false h) as E.
  { unfold not_nine, mbind, M_bind, isArray, get_length. rewrite Hl.
    rewrite bool_decide_eq_true_2 by done. cbn [negb].
    by rewrite Hl, Hlen. }
  rewrite (bind_Ok _ _ _ _ _ E). cbv iota.
  destruct (mapM_slice_throws refs h Hex) as [h' E'].
  exists h'. apply bind_Throw. unfold array_map. rewrite Hl.
  by apply bind_Throw.
Qed.

(** ** The grid on the page *)

Lemma elem_of_push_if x b name (l : list string) :
  x ∈ push_if b name l ↔ x ∈ l ∨ (b = true ∧ x = name).
Proof.
  unfold push_if. destruct b.
  - rewrite elem_of_app, list_elem_of_singleton. split.
    + intros [?|?]; auto.
    + intros [?|[_ ?]]; auto.
  - split; [auto|]. by intros [?|[? _]].
Qed.

Lemma grid_cell_empty rows baseRows r c :
  "empty" ∈ classes (grid_cell rows baseRows r c) ↔
  truthy (nullish (cell_of rows r c) zero) = false.
Proof.
  unfold grid_cell. cbn [classes].
  rewrite !elem_of_push_if, list_elem_of_singleton. split.
  - intros [[[[[[?|[? _]]|[_ ?]]|[_ ?]]|[_ ?]]|[_ ?]]|[_ ?]];
      try discriminate. by apply negb_true_iff.
  - intros H. do 5 left. right. split; [|done]. by apply negb_true_iff.
Qed.

Lemma grid_cell_solved rows baseRows r c :
  "solved" ∈ classes (grid_cell rows baseRows r c) ↔
  truthy (nullish (cell_of rows r c) zero) = true ∧
  truthy (nullish (cell_of baseRows r c) zero) = false.
Proof.
  unfold grid_cell. cbn [classes].
  rewrite !elem_of_push_if, list_elem_of_singleton. split.
  - intros [[[[[[?|[_ ?]]|[H _]]|[_ ?]]|[_ ?]]|[_ ?]]|[_ ?]];
      try discriminate.
    apply andb_true_iff in H as [? ?]. split; [done|]. by apply negb_true_iff.
  - intros [H1 H2]. do 4 left. right. split; [|done].
    apply andb_true_iff. split; [done|]. by apply negb_true_iff.
Qed.

Lemma elem_of_SudokuGrid rows baseRows x :
  x ∈ SudokuGrid rows baseRows →
  ∃ r c, r < 9 ∧ c < 9 ∧ x = grid_cell rows baseRows r c.
Proof.
  unfold SudokuGrid. rewrite list_elem_of_In, in_flat_map.
  intros (r & Hr & Hx). apply list_elem_of_In, list_elem_of_fmap in Hx
    as (c & -> & Hc).
  apply in_seq in Hr. apply elem_of_seq in Hc.
  exists r, c. split; [lia|]. split; [lia|done].
Qed.

Lemma SudokuGrid_lookup rows baseRows r c :
  r < 9 → c < 9 →
  SudokuGrid rows baseRows !! (9 * r + c) = Some (grid_cell rows baseRows r c).
Proof.
  intros Hr Hc.
  do 9 (destruct r as [|r];
        [do 9 (destruct c as [|c]; [reflexivity|]); lia|]).
  lia.
Qed.

Lemma truthy_of_Z z : truthy (of_Z z) = negb (z =? 0)%Z.
Proof. rewrite <- (strict_eq_of_Z z 0). reflexivity. Qed.

(** X10: the grid has 81 cells, whatever it is given to draw, and no two have
    the same key. *)
Theorem SudokuGrid_keys rows baseRows :
  length (SudokuGrid rows baseRows) = 81 ∧
  NoDup (key <$> SudokuGrid rows baseRows).
Proof.
  split; [reflexivity|].
  change (key <$> SudokuGrid rows baseRows)
    with (key <$> SudokuGrid None None).
  apply (bool_decide_unpack _). vm_compute. exact I.
Qed.

(** X11: on a card every cell that is not empty carries the class of the cells
    that the solver filled: [PuzzleCard] passes no [baseRows]. *)
Theorem card_grid_classes (puzzle : grid) :
  Forall (fun x => "solved" ∈ classes x ↔ "empty" ∉ classes x)
         (card_grid puzzle).
Proof.
  apply Forall_forall. unfold card_grid.
  intros x (r & c & _ & _ & ->)%elem_of_SudokuGrid.
  rewrite grid_cell_empty, grid_cell_solved.
  change (truthy (nullish (cell_of None r c) zero)) with false.
  destruct (truthy (nullish (cell_of (Some puzzle) r c) zero)).
  - split; [discriminate|done].
  - split; [by intros [? _]|]. intros H. by destruct H.
Qed.

(** X12: before a solve, and after one that failed, the dialog draws the puzzle
    and marks no cell as solved. *)
Theorem dialog_grid_unsolved (puzzle : grid) :
  Forall (fun x => "solved" ∉ classes x) (dialog_grid None puzzle).
Proof.
  apply Forall_forall. unfold dialog_grid.
  change (default puzzle None) with puzzle.
  intros x (r & c & _ & _ & ->)%elem_of_SudokuGrid.
  rewrite grid_cell_solved. intros [H1 H2]. congruence.
Qed.

(** X13: after a solve of a 9×9 grid of digits that returned a solution, the
    dialog draws a digit from 1 to 9 in every cell, the digit of the
    puzzle where it has one, and marks as solved exactly the cells that
    the puzzle left empty. *)
Theorem dialog_grid_solved fuel h rows zg b h' :
  board_at h rows (inj zg) → wf9 zg → digits zg →
  solveSudoku fuel rows h = Ok (Solution b) h' →
  ∀ r c, r < 9 → c < 9 →
    ∃ x d, dialog_grid (Some (read_board h' b)) (inj zg) !! (9 * r + c) = Some x ∧
           content x = of_Z d ∧ (1 ≤ d ≤ 9)%Z ∧
           (zcell zg r c ≠ 0%Z → d = zcell zg r c) ∧
           ("empty" ∉ classes x) ∧
           ("solved" ∈ classes x ↔ zcell zg r c = 0%Z).
Proof.
  intros Hat Hwf Hdig E r c Hr Hc. apply (solveSudoku_fuel fuel 82) in E.
  destruct (solveSudoku_grid (fuel + 82) 0 h rows zg Hat Hwf Hdig)
    as (o & h1 & E1 & [[_ ->]|[(_ & _ & ->)|(_ & s & [Hs _] & -> & ->)]]);
    [intros p Hp; lia|lia|lia|congruence|congruence|].
  rewrite E in E1. injection E1 as -> ->.
  destruct Hs as (Hwfs & Hfull & _ & Hext).
  rewrite (read_board_at _ _ _ (board_at_solution h s Hwfs)).
  unfold dialog_grid. change (default (inj zg) (Some (inj s))) with (inj s).
  exists (grid_cell (Some (inj s)) (Some (inj zg)) r c), (zcell s r c).
  specialize (Hfull r c Hr Hc). specialize (Hext r c Hr Hc).
  cbv beta in Hfull, Hext.
  split; [by apply SudokuGrid_lookup|].
  assert (nullish (cell_of (Some (inj s)) r c) zero = of_Z (zcell s r c)) as Es.
  { cbn [cell_of]. by rewrite cellG_inj. }
  assert (nullish (cell_of (Some (inj zg)) r c) zero = of_Z (zcell zg r c)) as Ez.
  { cbn [cell_of]. by rewrite cellG_inj. }
  assert (truthy (of_Z (zcell s r c)) = true) as Ts.
  { rewrite truthy_of_Z. apply negb_true_iff, Z.eqb_neq. lia. }
  split; [|split; [done|split; [by auto|split]]].
  - unfold grid_cell. cbn [content]. by rewrite Es, Ts.
  - rewrite grid_cell_empty, Es, Ts. done.
  - rewrite grid_cell_solved, Es, Ez, Ts, truthy_of_Z, negb_false_iff, Z.eqb_eq.
    tauto.
Qed.

(** ** The rest of the viewer at example inputs *)

Lemma exact_number_small z :
  (0 ≤ z ≤ 2 ^ 53)%Z → exact_number z = Fin (inject_Z z).
Proof. reflexivity. Qed.

Lemma exact_number_big z :
  (2 ^ 53 < z)%Z → in_range (VNum (exact_number z)) = false.
Proof.
  intros Hz. apply not_true_is_false. intros H.
  apply (in_range_of_Z z) in H.
  change (2 ^ 53)%Z with 9007199254740992%Z in Hz. lia.
Qed.

Lemma parsePuzzle_render_witness :
  parsePuzzle exact_number (render (String LF "") puzzle9)
  = {| rows := inj puzzle9; errors := [] |}.
Proof.
  apply (parsePuzzle_render exact_number exact_number_small (String LF "") puzzle9).
  - by_computation.
  - by_computation.
  - left. reflexivity.
Defined.

Lemma parsed_rows_grid_witness :
  ∃ zg, rows (parsePuzzle exact_number puzzle9_text) = inj zg ∧ wf9 zg ∧ digits zg.
Proof.
  apply (parsed_rows_grid exact_number exact_number_small exact_number_big
           puzzle9_text).
  - vm_compute. reflexivity.
  - by_computation.
Defined.

Lemma parsed_rows_solve_witness :
  ∃ o h', solveSudoku 82 input_rows
            (input_store (rows (parsePuzzle exact_number puzzle9_text)))
          = Ok o h' ∧
          ∀ m, o = Error m →
               m = msg_range ∨ m = msg_conflict ∨ m = msg_unsolvable.
Proof.
  apply (parsed_rows_solve exact_number puzzle9_text 82).
  - vm_compute. reflexivity.
  - apply input_at. vm_compute. reflexivity.
  - lia.
Defined.

Lemma solveSudoku_outcomes_witness :
  ∃ o h', solveSudoku 82 input_rows (input_store frac9) = Ok o h' ∧
    match o with
    | Error m =>
        m = msg_rows ∨ (∃ r, r < 9 ∧ m = msg_row r) ∨ m = msg_range ∨
        m = msg_conflict ∨ m = msg_unsolvable
    | Solution b =>
        b = VRef (length (input_store frac9) + 9) ∧
        input_store frac9 !! (length (input_store frac9) + 9) = None
    end.
Proof.
  apply (solveSudoku_outcomes 82 (input_store frac9) input_rows frac9).
  - apply input_at. reflexivity.
  - lia.
Defined.

Lemma solveSudoku_not_array_witness :
  solveSudoku 82 (VStr "123456789") [] = Ok (Error msg_rows) [].
Proof.
  apply (solveSudoku_not_array 82 (VStr "123456789") []).
  intros l Hl. discriminate Hl.
Defined.

Lemma isValid_own_value_witness :
  isValid input_rows 0 2 (of_Z 4) (input_store (inj puzzle9))
  = Ok false (input_store (inj puzzle9)).
Proof.
  apply (isValid_own_value (input_store (inj puzzle9)) input_rows (inj puzzle9)
           0 2 (of_Z 4)).
  - apply input_at. reflexivity.
  - reflexivity.
  - lia.
  - lia.
  - vm_compute. reflexivity.
Defined.

Lemma solveBoard_failure_restores_witness :
  ∃ b h', solveBoard 82 (board_of [] 9) (lay [] (inj stuck9)) = Ok b h' ∧
          (b = false ↔ ¬ ∃ s, completion stuck9 s) ∧
          (b = false → h' = lay [] (inj stuck9)).
Proof.
  apply (solveBoard_failure_restores 82 [] stuck9).
  - by_computation.
  - by_computation.
  - by_computation.
  - lia.
Defined.

Lemma solveSudoku_row_without_slice_witness :
  ∃ h', solveSudoku 82 null_row_rows null_row_store = Throw h'.
Proof.
  apply (solveSudoku_row_without_slice 82 10
           (<[8 := VNull]> (row_refs [] 9)) null_row_store).
  - reflexivity.
  - reflexivity.
  - do 8 apply Exists_cons_tl. apply Exists_cons_hd. exact I.
Defined.

Lemma dialog_grid_solved_witness :
  ∃ b h',
    solveSudoku 82 input_rows (input_store (inj puzzle9)) = Ok (Solution b) h' ∧
    ∀ r c, r < 9 → c < 9 →
      ∃ x d, dialog_grid (Some (read_board h' b)) (inj puzzle9) !! (9 * r + c)
             = Some x ∧
             content x = of_Z d ∧ (1 ≤ d ≤ 9)%Z ∧
             (zcell puzzle9 r c ≠ 0%Z → d = zcell puzzle9 r c) ∧
             ("empty" ∉ classes x) ∧
             ("solved" ∈ classes x ↔ zcell puzzle9 r c = 0%Z).
Proof.
  eexists _, _. split; [vm_compute; reflexivity|].
  apply (dialog_grid_solved 82 (input_store (inj puzzle9)) input_rows puzzle9).
  - apply input_at. reflexivity.
  - by_computation.
  - by_computation.
  - vm_compute. reflexivity.
Defined.
